(** * Generalized rock-paper-scissors: a shallow embedding of [logic.py]

    The Python classes [Result], [SelectionSet], [Game], [Player]
    (with its subclasses [HumanPlayer] and [ComputerPlayer]) and
    [GameHandler] are rendered as Rocq modules of the same names.
    Exceptions are values of [Py.exn] carried by the error monad [Py.res];
    the mutable objects (players, the handler, the console and the random
    generator) live in an explicit machine state threaded through the
    handler's methods. *)

From Stdlib Require Import ZArith Floats Ascii String List Lia.
From Stdlib Require Uint63.
From stdpp Require Import gmap strings list fin_maps pretty numbers.

Local Open Scope string_scope.
Local Open Scope list_scope.

(** ** The Python runtime the program relies on *)

Module Py.

(** The exceptions the program can raise. *)
Inductive exn : Type :=
| AssertionError (msg : string)
| IndexError
| ValueError
| KeyError
| ZeroDivisionError
| EOFError.

Inductive res (A : Type) : Type :=
| Ok (a : A)
| Raise (e : exn).
Arguments Ok {A} a.
Arguments Raise {A} e.

Definition bind {A B : Type} (m : res A) (k : A -> res B) : res B :=
  match m with
  | Ok a => k a
  | Raise e => Raise e
  end.

Definition returns {A : Type} (m : res A) : Prop := exists a, m = Ok a.

(** [x in xs] on a list of strings. *)
Fixpoint contains (x : string) (xs : list string) : bool :=
  match xs with
  | [] => false
  | y :: ys => if String.eqb y x then true else contains x ys
  end.

(** [xs.index(x)]: the position of the first element equal to [x];
    [ValueError] when there is none. *)
Fixpoint index (xs : list string) (x : string) : res nat :=
  match xs with
  | [] => Raise ValueError
  | y :: ys =>
      if String.eqb y x then Ok 0
      else bind (index ys x) (fun i => Ok (S i))
  end.

(** [xs[i]] for a non-negative [i]; [IndexError] out of range. *)
Definition getitem {A : Type} (xs : list A) (i : nat) : res A :=
  match xs !! i with
  | Some a => Ok a
  | None => Raise IndexError
  end.

(** [xs.count(v)] on a list of integers. *)
Fixpoint count (xs : list Z) (v : Z) : nat :=
  match xs with
  | [] => 0
  | y :: ys => (if Z.eqb y v then 1 else 0) + count ys v
  end.

(** [d[k]] on a dictionary; [KeyError] when the key is absent. *)
Definition dict_get `{Countable K} {V : Type} (d : gmap K V) (k : K) : res V :=
  match d !! k with
  | Some v => Ok v
  | None => Raise KeyError
  end.

(** The numbers the program computes with: an [int] or a [float], which
    is a binary64 floating-point number. *)
Inductive number : Type :=
| Int (z : Z)
| Float (f : float).

(** A non-negative integer as the exact operand of a floating-point
    operation. *)
Definition operand (n : nat) : spec_float :=
  match n with
  | O => S754_zero false
  | S _ => S754_finite false (Pos.of_nat n) 0
  end.

(** [a / b] on two non-negative integers.  True division of two [int]s
    is correctly rounded: the result is the binary64 float nearest to the
    quotient of the two integers, ties to even.  [ZeroDivisionError] when
    [b] is zero. *)
Definition truediv (a b : nat) : res float :=
  if Nat.eqb b 0 then Raise ZeroDivisionError
  else Ok (SF2Prim (SF64div (operand a) (operand b))).

Definition newline : string := String "010"%char EmptyString.

(** The console and the process-wide random generator.  [stdin] holds
    the lines still to be read, [stdout] the pieces of text written so
    far, [rand] the stream of raw draws of the generator and [rand_pos]
    how many of them were consumed. *)
Record World : Type := mkWorld {
  stdin : list string;
  stdout : list string;
  rand : nat -> nat;
  rand_pos : nat
}.

(** [print(s)]. *)
Definition print (s : string) (w : World) : World :=
  mkWorld (stdin w) (stdout w ++ [s +:+ newline]) (rand w) (rand_pos w).

(** [input(prompt)]: writes the prompt, reads one line; [EOFError] at
    the end of the input. *)
Definition input (prompt : string) (w : World) : res (string * World) :=
  match stdin w with
  | [] => Raise EOFError
  | line :: rest =>
      Ok (line, mkWorld rest (stdout w ++ [prompt]) (rand w) (rand_pos w))
  end.

(** [random.choice(seq)]: [IndexError] on an empty sequence, otherwise
    the element at a position below [len(seq)] drawn from the generator. *)
Definition random_choice (seq : list string) (w : World) : res (string * World) :=
  match seq with
  | [] => Raise IndexError
  | _ :: _ =>
      bind (getitem seq (rand w (rand_pos w) mod length seq)) (fun s =>
      Ok (s, mkWorld (stdin w) (stdout w) (rand w) (S (rand_pos w))))
  end.

End Py.

Import Py.

Notation "x <- m ;; k" := (Py.bind m (fun x => k))
  (at level 100, m at next level, right associativity).

(** ** class Result(Enum) *)

Inductive Result : Type := WIN | TIE | LOSE.

#[global] Instance Result_eq_dec : EqDecision Result.
Proof. solve_decision. Defined.

#[global] Instance Result_countable : Countable Result.
Proof.
  refine (inj_countable'
            (fun r => match r with WIN => 0 | TIE => 1 | LOSE => 2 end)
            (fun n => match n with 0 => WIN | 1 => TIE | _ => LOSE end) _).
  intros []; reflexivity.
Defined.

Module ResultEnum.

(** [Result.X.value]. *)
Definition value (r : Result) : Z :=
  match r with
  | WIN => 1
  | TIE => 0
  | LOSE => -1
  end.

(** [Result(v)]: the member whose value is [v]; [ValueError] when no
    member has that value. *)
Definition of_value (v : Z) : res Result :=
  if Z.eqb v 1 then Ok WIN
  else if Z.eqb v 0 then Ok TIE
  else if Z.eqb v (-1) then Ok LOSE
  else Raise ValueError.

(** Iteration order of the enumeration ([for result in Result]). *)
Definition members : list Result := [WIN; TIE; LOSE].

(** [self.name]. *)
Definition name (r : Result) : string :=
  match r with
  | WIN => "WIN"
  | TIE => "TIE"
  | LOSE => "LOSE"
  end.

(** [__str__]: [self.name.lower()]. *)
Definition str (r : Result) : string :=
  match r with
  | WIN => "win"
  | TIE => "tie"
  | LOSE => "lose"
  end.

End ResultEnum.

(** ** class SelectionSet *)

Module SelectionSet.

Record t : Type := mk {
  selections : list string;
  relations : list (list Z)
}.

(** [get_result]: the two assertions, the two [index] calls, then the
    tuple, whose components are evaluated left to right. *)
Definition get_result (self : t) (selection1 selection2 : string)
  : res (Result * Result) :=
  if negb (contains selection1 (selections self)) then
    Raise (AssertionError (selection1 +:+ " is not a valid selection"))
  else if negb (contains selection2 (selections self)) then
    Raise (AssertionError (selection2 +:+ " is not a valid selection"))
  else
    index1 <- index (selections self) selection1 ;;
    index2 <- index (selections self) selection2 ;;
    row1 <- getitem (relations self) index1 ;;
    v12 <- getitem row1 index2 ;;
    r1 <- ResultEnum.of_value v12 ;;
    row2 <- getitem (relations self) index2 ;;
    v21 <- getitem row2 index1 ;;
    r2 <- ResultEnum.of_value v21 ;;
    Ok (r1, r2).

(** [get_result] as [play_turn] calls it, on what the two players'
    [play] returned: a string, or [None] from the base class.  [None] is
    in no list of strings, so the assertion on it fails, with [None]
    formatted into the message; the two assertions are checked in order.
    A call that returns hands back the two moves, which are then known to
    be strings, with the results. *)
Definition get_result_of_moves (self : t) (selection1 selection2 : option string)
  : res (string * string * (Result * Result)) :=
  match selection1, selection2 with
  | Some selection1, Some selection2 =>
      results <- get_result self selection1 selection2 ;;
      Ok (selection1, selection2, results)
  | None, _ => Raise (AssertionError ("None" +:+ " is not a valid selection"))
  | Some selection1, None =>
      if negb (contains selection1 (selections self)) then
        Raise (AssertionError (selection1 +:+ " is not a valid selection"))
      else Raise (AssertionError ("None" +:+ " is not a valid selection"))
  end.

End SelectionSet.

(** ** class Game *)

Module Game.

Record t : Type := mk {
  name : string;
  selection_set : SelectionSet.t
}.

End Game.

(** ** class Player and its subclasses *)

Module Player.

(** The class of the object: [Player] itself (it derives from [ABC] but
    declares no abstract method, so it can be instantiated),
    [HumanPlayer] or [ComputerPlayer]. *)
Inductive kind : Type := Base | Human | Computer.

(** One entry of a player's history. *)
Record turn : Type := mkTurn {
  player_move : string;
  opponent_move : string;
  player_result : Result;
  opponent_result : Result
}.

Record t : Type := mk {
  name : string;
  cls : kind;
  history : list turn
}.

(** [__init__]. *)
Definition init (c : kind) (n : string) : t := mk n c [].

(** [observe]: [self.history.append({...})]. *)
Definition observe (self : t) (player_move opponent_move : string)
    (player_result opponent_result : Result) : t :=
  mk (name self) (cls self)
     (history self
        ++ [mkTurn player_move opponent_move player_result opponent_result]).

(** [play] of the base class: its body is [pass], it returns [None] and
    touches nothing. *)
Definition play (game : Game.t) (w : World) : res (option string * World) :=
  Ok (None, w).

(** [__str__]: the name, with the tag the two subclasses put before it. *)
Definition str (self : t) : string :=
  match cls self with
  | Base => name self
  | Human => "(human)" +:+ name self
  | Computer => "(computer)" +:+ name self
  end.

End Player.

Module HumanPlayer.

Definition parse_move (answer : string) (selections : list string)
  : option string :=
  if contains answer selections then Some answer else None.

(** The [while True] loop of [ask_move]: each round is one [input]
    (the prompt is written, one line is read) followed by
    [parse_move]; the recursion is on the lines still to be read. *)
Fixpoint ask_loop (question_str : string) (selections : list string)
    (lines out : list string) : res (string * (list string * list string)) :=
  match lines with
  | [] => Raise EOFError
  | answer :: rest =>
      match parse_move answer selections with
      | Some parsed_move => Ok (parsed_move, (rest, out ++ [question_str]))
      | None => ask_loop question_str selections rest (out ++ [question_str])
      end
  end.

Definition ask_move (game : Game.t) (w : World) : res (string * World) :=
  let selections := SelectionSet.selections (Game.selection_set game) in
  let selections_str := String.concat ", " selections in
  let question_str := "Your move? [" +:+ selections_str +:+ "]:" +:+ newline in
  r <- ask_loop question_str selections (stdin w) (stdout w) ;;
  Ok (r.1, mkWorld r.2.1 r.2.2 (rand w) (rand_pos w)).

Definition play (game : Game.t) (w : World) : res (string * World) :=
  ask_move game w.

End HumanPlayer.

Module ComputerPlayer.

Definition play_uniformly_random (game : Game.t) (w : World)
  : res (string * World) :=
  let selections := SelectionSet.selections (Game.selection_set game) in
  random_choice selections w.

Definition play (game : Game.t) (w : World) : res (string * World) :=
  play_uniformly_random game w.

(** The body of the [for s_relation in relations] loop of
    [play_weighted_random]: the weight appended for one row. *)
Definition weight (s_relation : list Z) : res number :=
  let lose_count := count s_relation (-1) in
  let win_count := count s_relation 1 in
  let total_count := win_count + lose_count in
  if Nat.eqb total_count 0 then Ok (Int 0)
  else
    quotient <- truediv win_count total_count ;;
    Ok (Float quotient).

(** The loop itself: [selections_weights] starts empty and receives one
    weight per row of [relations], in order. *)
Fixpoint weights_loop (relations : list (list Z))
    (selections_weights : list number) : res (list number) :=
  match relations with
  | [] => Ok selections_weights
  | s_relation :: rest =>
      w <- weight s_relation ;;
      weights_loop rest (selections_weights ++ [w])
  end.

(** The weight vector [play_weighted_random] hands to [random.choices]. *)
Definition selections_weights (game : Game.t) : res (list number) :=
  let relations := SelectionSet.relations (Game.selection_set game) in
  weights_loop relations [].

End ComputerPlayer.

(** [player.play(game)]: dispatch on the class of the object.  The
    result is a string, or [None] for an instance of the base class. *)
Definition Player_play (self : Player.t) (game : Game.t) (w : World)
  : res (option string * World) :=
  match Player.cls self with
  | Player.Base => Player.play game w
  | Player.Human => r <- HumanPlayer.play game w ;; Ok (Some r.1, r.2)
  | Player.Computer => r <- ComputerPlayer.play game w ;; Ok (Some r.1, r.2)
  end.

(** ** class GameHandler *)

Module GameHandler.

(** Players are objects: the handler holds references to them, and the
    two references may designate the same object. *)
Definition ref : Type := nat.

(** One entry of the handler's history. *)
Record turn : Type := mkTurn {
  player1_move : string;
  player2_move : string;
  player1_result : Result;
  player2_result : Result
}.

Record t : Type := mk {
  game : Game.t;
  player1 : ref;
  player2 : ref;
  history : list turn
}.

(** [__init__]. *)
Definition init (g : Game.t) (p1 p2 : ref) : t := mk g p1 p2 [].

(** What a method of the handler can read and write: the handler
    object itself, the player objects, the console and the generator. *)
Record State : Type := mkState {
  self : t;
  store : ref -> Player.t;
  world : World
}.

(** Methods are state transformers that may raise. *)
Definition M (A : Type) : Type := State -> res (A * State).

Definition ret {A : Type} (a : A) : M A := fun s => Ok (a, s).

Definition bindM {A B : Type} (m : M A) (k : A -> M B) : M B :=
  fun s =>
    match m s with
    | Ok (a, s') => k a s'
    | Raise e => Raise e
    end.

Definition gets {A : Type} (f : State -> A) : M A := fun s => Ok (f s, s).

Definition lift {A : Type} (r : res A) : M A :=
  fun s =>
    match r with
    | Ok a => Ok (a, s)
    | Raise e => Raise e
    end.

(** Run a console or generator action. *)
Definition io {A : Type} (f : World -> res (A * World)) : M A :=
  fun s =>
    match f (world s) with
    | Ok (a, w) => Ok (a, mkState (self s) (store s) w)
    | Raise e => Raise e
    end.

(** Mutate the player object behind a reference. *)
Definition update_player (r : ref) (f : Player.t -> Player.t) : M unit :=
  fun s =>
    Ok (tt, mkState (self s)
              (fun q => if Nat.eqb q r then f (store s q) else store s q)
              (world s)).

Notation "x <~ m ;; k" := (bindM m (fun x => k))
  (at level 100, m at next level, right associativity).
Notation "m ;;; k" := (bindM m (fun _ => k))
  (at level 100, right associativity).

Definition add_turn_to_history (player1_move player2_move : string)
    (player1_result player2_result : Result) : M unit :=
  fun s =>
    let h := self s in
    Ok (tt, mkState
              (mk (game h) (player1 h) (player2 h)
                  (history h ++ [mkTurn player1_move player2_move
                                        player1_result player2_result]))
              (store s) (world s)).

(** [{result: 0 for result in Result}]. *)
Definition tmp_dct : gmap Result nat :=
  fold_left (fun d result => <[result := 0]> d) ResultEnum.members ∅.

(** [counts[player][result] += 1].  The two inner dictionaries are
    separate copies of [tmp_dct], so updating one in place is the
    functional update of its entry in the outer dictionary. *)
Definition increment (counts : gmap string (gmap Result nat))
    (player : string) (result : Result)
  : res (gmap string (gmap Result nat)) :=
  d <- dict_get counts player ;;
  n <- dict_get d result ;;
  Ok (<[player := <[result := n + 1]> d]> counts).

(** The [for turn_result in self.history] loop. *)
Fixpoint tally (hist : list turn)
    (result_counts_by_player : gmap string (gmap Result nat))
  : res (gmap string (gmap Result nat)) :=
  match hist with
  | [] => Ok result_counts_by_player
  | turn_result :: rest =>
      c1 <- increment result_counts_by_player "player1"
              (player1_result turn_result) ;;
      c2 <- increment c1 "player2" (player2_result turn_result) ;;
      tally rest c2
  end.

Definition get_current_result : M (gmap string (gmap Result nat)) :=
  hist <~ gets (fun s => history (self s)) ;;
  lift (tally hist (<["player2" := tmp_dct]> (<["player1" := tmp_dct]> ∅))).

Definition get_current_result_str : M string :=
  result_counts_by_player <~ get_current_result ;;
  p1 <~ gets (fun s => store s (player1 (self s))) ;;
  p2 <~ gets (fun s => store s (player2 (self s))) ;;
  lift (
    d1 <- dict_get result_counts_by_player "player1" ;;
    p1_w <- dict_get d1 WIN ;;
    d1 <- dict_get result_counts_by_player "player1" ;;
    p1_t <- dict_get d1 TIE ;;
    d1 <- dict_get result_counts_by_player "player1" ;;
    p1_l <- dict_get d1 LOSE ;;
    d2 <- dict_get result_counts_by_player "player2" ;;
    p2_w <- dict_get d2 WIN ;;
    d2 <- dict_get result_counts_by_player "player2" ;;
    p2_t <- dict_get d2 TIE ;;
    d2 <- dict_get result_counts_by_player "player2" ;;
    p2_l <- dict_get d2 LOSE ;;
    Ok (Player.str p1 +:+ " (" +:+ pretty p1_w +:+ "W, " +:+ pretty p1_t
          +:+ "T, " +:+ pretty p1_l +:+ "L) vs " +:+ Player.str p2
          +:+ " (" +:+ pretty p2_w +:+ "W, " +:+ pretty p2_t +:+ "T, "
          +:+ pretty p2_l +:+ "L)")).

Definition get_result_str (player1_move player2_move : string)
    (player1_result player2_result : Result) : M string :=
  p1 <~ gets (fun s => store s (player1 (self s))) ;;
  p2 <~ gets (fun s => store s (player2 (self s))) ;;
  ret ((Player.str p1 +:+ " chooses " +:+ player1_move +:+ " and "
          +:+ Player.str p2 +:+ " chooses " +:+ player2_move +:+ newline)
       +:+ (Player.str p1 +:+ " " +:+ ResultEnum.str player1_result
              +:+ "s and " +:+ Player.str p2 +:+ " "
              +:+ ResultEnum.str player2_result +:+ "s" +:+ newline)).

Definition play_turn : M unit :=
  h <~ gets self ;;
  p1 <~ gets (fun s => store s (player1 h)) ;;
  move1 <~ io (Player_play p1 (game h)) ;;
  p2 <~ gets (fun s => store s (player2 h)) ;;
  move2 <~ io (Player_play p2 (game h)) ;;
  resolved <~ lift (SelectionSet.get_result_of_moves
                      (Game.selection_set (game h)) move1 move2) ;;
  let player1_move := resolved.1.1 in
  let player2_move := resolved.1.2 in
  let player1_result := resolved.2.1 in
  let player2_result := resolved.2.2 in
  update_player (player1 h) (fun p =>
    Player.observe p player1_move player2_move player1_result player2_result) ;;;
  update_player (player2 h) (fun p =>
    Player.observe p player2_move player1_move player2_result player1_result) ;;;
  line <~ get_result_str player1_move player2_move player1_result player2_result ;;
  io (fun w => Ok (tt, print line w)) ;;;
  add_turn_to_history player1_move player2_move player1_result player2_result ;;;
  tally_str <~ get_current_result_str ;;
  io (fun w => Ok (tt, print tally_str w)).

(** How a bounded observation of [play] ends: the loop reached its
    [break], an exception escaped, or the loop is still running when
    the observation stops. *)
Inductive outcome : Type :=
| Returned (s : State)
| Raised (e : exn)
| Running (s : State).

(** [i_turn == max_num_of_turns], where the right-hand side may be
    [None]. *)
Definition turn_limit_reached (i_turn : Z) (max_num_of_turns : option Z) : bool :=
  match max_num_of_turns with
  | None => false
  | Some m => Z.eqb i_turn m
  end.

(** The [while True] loop of [play], observed for [fuel] iterations. *)
Fixpoint play_loop (fuel : nat) (max_num_of_turns : option Z) (i_turn : Z)
    (s : State) : outcome :=
  match fuel with
  | O => Running s
  | S fuel' =>
      match play_turn s with
      | Raise e => Raised e
      | Ok (_, s') =>
          let i_turn := (i_turn + 1)%Z in
          if turn_limit_reached i_turn max_num_of_turns then Returned s'
          else play_loop fuel' max_num_of_turns i_turn s'
      end
  end.

Definition play (fuel : nat) (max_num_of_turns : option Z) (s : State)
  : outcome :=
  play_loop fuel max_num_of_turns 0%Z s.

(** [n] calls of [play_turn] in a row, each of which completes. *)
Fixpoint turns (n : nat) (s : State) : res State :=
  match n with
  | O => Ok s
  | S n' =>
      r <- play_turn s ;;
      turns n' r.2
  end.

End GameHandler.

(** ** The script [rock_paper_scissors.py] *)

Module RockPaperScissors.

Definition s : SelectionSet.t :=
  SelectionSet.mk ["rock"; "paper"; "scissors"]
    [[0; -1; 1]; [1; 0; -1]; [-1; 1; 0]]%Z.

Definition g : Game.t := Game.mk "Rock Paper Scissors" s.

Definition human : Player.t := Player.init Player.Human "afozk95".

Definition computer : Player.t := Player.init Player.Computer "random".

(** The two player objects of the script, at references 0 and 1. *)
Definition objects (r : GameHandler.ref) : Player.t :=
  match r with
  | 0 => human
  | _ => computer
  end.

Definition handler : GameHandler.t := GameHandler.init g 0 1.

Definition start (w : World) : GameHandler.State :=
  GameHandler.mkState handler objects w.

End RockPaperScissors.

(** ** A match between two computer players *)

Module ComputerMatch.

Definition objects (r : GameHandler.ref) : Player.t :=
  match r with
  | 0 => Player.init Player.Computer "first"
  | _ => Player.init Player.Computer "second"
  end.

(** [GameHandler(g, ComputerPlayer("first"), ComputerPlayer("second"))]
    on the rock-paper-scissors game of the script. *)
Definition start (w : World) : GameHandler.State :=
  GameHandler.mkState (GameHandler.init RockPaperScissors.g 0 1) objects w.

End ComputerMatch.

(** * Properties *)

(** ** Vocabulary used to state the properties *)

(** [i] is where [x.index] looks: the first position of [xs] holding [x]. *)
Definition first_position (xs : list string) (x : string) (i : nat) : Prop :=
  xs !! i = Some x /\ forall k y, k < i -> xs !! k = Some y -> y <> x.

(** [relations[i][j]], when the matrix has such an entry. *)
Definition entry (relations : list (list Z)) (i j : nat) : option Z :=
  match relations !! i with
  | Some row => row !! j
  | None => None
  end.

(** The encoding of outcomes in the payoff matrix: 1 is a win, 0 a tie
    and -1 a loss. *)
Definition encodes (v : Z) (r : Result) : Prop :=
  (v = 1%Z /\ r = WIN) \/ (v = 0%Z /\ r = TIE) \/ (v = (-1)%Z /\ r = LOSE).

(** The shape the data model gives a selection set: a square matrix, as
    large as the list of selections, whose entries are -1, 0 or 1. *)
Definition well_shaped (ss : SelectionSet.t) : Prop :=
  let n := length (SelectionSet.selections ss) in
  length (SelectionSet.relations ss) = n /\
  Forall (fun row =>
            length row = n /\
            Forall (fun v => v = 1%Z \/ v = 0%Z \/ v = (-1)%Z) row)
         (SelectionSet.relations ss).

(** Self-play ties: every diagonal entry of the matrix is 0. *)
Definition diagonal_ties (ss : SelectionSet.t) : Prop :=
  forall i, i < length (SelectionSet.selections ss) ->
            entry (SelectionSet.relations ss) i i = Some 0%Z.

Definition is_assertion_error {A : Type} (m : res A) : Prop :=
  exists msg, m = Raise (AssertionError msg).

(** WIN + TIE + LOSE of one player's tally, when all three keys are there. *)
Definition tally_sum (d : gmap Result nat) : option nat :=
  match d !! WIN, d !! TIE, d !! LOSE with
  | Some w, Some t, Some l => Some (w + t + l)
  | _, _, _ => None
  end.

(** The mapping has an entry for each player and the two tallies sum to
    [n1] and [n2]. *)
Definition tallies (m : gmap string (gmap Result nat)) (n1 n2 : nat) : Prop :=
  exists d1 d2,
    m !! "player1" = Some d1 /\ m !! "player2" = Some d2 /\
    tally_sum d1 = Some n1 /\ tally_sum d2 = Some n2.

(** The number of wins and of losses in a row of the matrix, and the
    share of wins among the decided entries. *)
Definition win_count (row : list Z) : nat :=
  length (filter (fun v => v = 1%Z) row).

Definition lose_count (row : list Z) : nat :=
  length (filter (fun v => v = (-1)%Z) row).

(** The binary64 float nearest to the quotient of two counts, which is
    what [/] gives on them. *)
Definition float_quotient (a b : nat) : float :=
  SF2Prim (SF64div (operand a) (operand b)).

Definition win_rate (row : list Z) : number :=
  if Nat.eqb (win_count row) 0 && Nat.eqb (lose_count row) 0 then Int 0
  else Float (float_quotient (win_count row) (win_count row + lose_count row)).

(** The number is zero: the integer 0 or the float 0.0. *)
Definition is_zero (w : number) : Prop := w = Int 0 \/ w = Float 0%float.

Section TurnVocabulary.

Import GameHandler.

(** The state a completed turn leaves behind, given the two moves, the
    console after each move and the two results. *)
Definition after_turn (s : State) (m1 m2 : string) (w2 : World)
    (r1 r2 : Result) (line1 line2 : string) : State :=
  let h := self s in
  mkState
    (mk (game h) (player1 h) (player2 h)
        (history h ++ [mkTurn m1 m2 r1 r2]))
    (fun q =>
       if Nat.eqb q (player2 h)
       then Player.observe
              (if Nat.eqb q (player1 h)
               then Player.observe (store s q) m1 m2 r1 r2
               else store s q) m2 m1 r2 r1
       else if Nat.eqb q (player1 h)
            then Player.observe (store s q) m1 m2 r1 r2
            else store s q)
    (print line2 (print line1 w2)).

(** Computer players on a well-shaped, non-empty selection set can
    always play one more turn. *)
Definition computers_ready (s : State) : Prop :=
  well_shaped (Game.selection_set (game (self s))) /\
  SelectionSet.selections (Game.selection_set (game (self s))) <> [] /\
  forall q, Player.cls (store s q) = Player.Computer.

End TurnVocabulary.

(** ** Vocabulary for the further properties *)

(** The other side's outcome of a decided or tied turn. *)
Definition opposite (r : Result) : Result :=
  match r with
  | WIN => LOSE
  | TIE => TIE
  | LOSE => WIN
  end.

(** Whatever one selection scores against another, the other scores the
    negation against it. *)
Definition anti_symmetric (ss : SelectionSet.t) : Prop :=
  forall i j v,
    entry (SelectionSet.relations ss) i j = Some v ->
    entry (SelectionSet.relations ss) j i = Some (- v)%Z.

(** ASCII lower-casing, as [str.lower] does on the names of the enum. *)
Definition lower_ascii (c : ascii) : ascii :=
  let n := nat_of_ascii c in
  if Nat.leb 65 n && Nat.leb n 90 then ascii_of_nat (n + 32) else c.

Fixpoint lower (s : string) : string :=
  match s with
  | EmptyString => EmptyString
  | String c rest => String (lower_ascii c) (lower rest)
  end.

(** The prompt [ask_move] shows before each line it reads. *)
Definition prompt (game : Game.t) : string :=
  "Your move? ["
    +:+ String.concat ", " (SelectionSet.selections (Game.selection_set game))
    +:+ "]:" +:+ newline.

(** A record of the handler's history as each of the two players
    observes it. *)
Definition player1_view (t : GameHandler.turn) : Player.turn :=
  Player.mkTurn (GameHandler.player1_move t) (GameHandler.player2_move t)
    (GameHandler.player1_result t) (GameHandler.player2_result t).

Definition player2_view (t : GameHandler.turn) : Player.turn :=
  Player.mkTurn (GameHandler.player2_move t) (GameHandler.player1_move t)
    (GameHandler.player2_result t) (GameHandler.player1_result t).

(** The record is the resolution of its two moves by the selection set. *)
Definition resolved_by (ss : SelectionSet.t) (t : GameHandler.turn) : Prop :=
  SelectionSet.get_result ss (GameHandler.player1_move t)
    (GameHandler.player2_move t)
  = Ok (GameHandler.player1_result t, GameHandler.player2_result t).

(** How many records of a history give the outcome [r] to the player
    whose outcome [side] reads. *)
Definition count_result (side : GameHandler.turn -> Result) (r : Result)
    (hist : list GameHandler.turn) : nat :=
  length (filter (fun t => side t = r) hist).

(** The running tally line for two players and a history. *)
Definition tally_line (p1 p2 : Player.t) (hist : list GameHandler.turn) : string :=
  Player.str p1
    +:+ " (" +:+ pretty (count_result GameHandler.player1_result WIN hist)
    +:+ "W, " +:+ pretty (count_result GameHandler.player1_result TIE hist)
    +:+ "T, " +:+ pretty (count_result GameHandler.player1_result LOSE hist)
    +:+ "L) vs " +:+ Player.str p2
    +:+ " (" +:+ pretty (count_result GameHandler.player2_result WIN hist)
    +:+ "W, " +:+ pretty (count_result GameHandler.player2_result TIE hist)
    +:+ "T, " +:+ pretty (count_result GameHandler.player2_result LOSE hist)
    +:+ "L)".

(** The limit of [play] cannot be met after [k] more turns or fewer:
    there is none, it is not positive, or it lies further ahead. *)
Definition limit_beyond (k : nat) (max_num_of_turns : option Z) : Prop :=
  match max_num_of_turns with
  | None => True
  | Some m => (m <= 0 \/ Z.of_nat k < m)%Z
  end.

(** The assertion of [get_result] on a move that is [None]. *)
Definition none_rejected : exn :=
  AssertionError "None is not a valid selection".

(** [play] was given no limit it could ever meet. *)
Definition unbounded (max_num_of_turns : option Z) : Prop :=
  match max_num_of_turns with
  | None => True
  | Some m => (m <= 0)%Z
  end.

(** A selection set whose matrix is too small and holds a value that is
    no outcome. *)
Definition malformed : SelectionSet.t :=
  SelectionSet.mk ["a"; "b"] [[0; 2]]%Z.

(** ** Lists and lookups *)

Section ListFacts.

Lemma contains_elem_of (x : string) (xs : list string) :
  contains x xs = true <-> x ∈ xs.
Proof.
  induction xs as [|y ys IH]; simpl.
  - split; [discriminate | intros H; inversion H].
  - destruct (String.eqb_spec y x) as [->|Hne].
    + split; [intros _; left | reflexivity].
    + rewrite IH. split.
      * intros H; now right.
      * intros H. inversion H; subst; [congruence | assumption].
Qed.

Lemma contains_false (x : string) (xs : list string) :
  contains x xs = false <-> x ∉ xs.
Proof.
  rewrite <- contains_elem_of. destruct (contains x xs); split; congruence.
Qed.

Lemma index_first_position (xs : list string) (x : string) (i : nat) :
  index xs x = Ok i <-> first_position xs x i.
Proof.
  revert i. induction xs as [|y ys IH]; intros i; simpl.
  - split; [discriminate | intros [H _]; discriminate].
  - destruct (String.eqb_spec y x) as [->|Hne].
    + split.
      * intros [= <-]. split; [reflexivity | intros k y Hk; lia].
      * intros [Hi Hfirst]. destruct i as [|i]; [reflexivity |].
        exfalso. apply (Hfirst 0 x); [lia | reflexivity | reflexivity].
    + split.
      * destruct (index ys x) as [i'|e]; simpl; [| discriminate].
        intros [= <-]. destruct (proj1 (IH i') eq_refl) as [Hi Hfirst].
        split; [exact Hi |].
        intros [|k] z Hk Hz; simpl in Hz.
        -- congruence.
        -- apply (Hfirst k z); [lia | exact Hz].
      * intros [Hi Hfirst]. destruct i as [|i]; simpl in Hi; [congruence |].
        assert (E : index ys x = Ok i).
        { apply IH. split; [exact Hi |].
          intros k z Hk Hz. apply (Hfirst (S k) z); [lia | exact Hz]. }
        rewrite E. reflexivity.
Qed.

Lemma index_of_member (xs : list string) (x : string) :
  x ∈ xs -> exists i, index xs x = Ok i /\ i < length xs.
Proof.
  induction xs as [|y ys IH]; intros H; [inversion H |]. simpl.
  destruct (String.eqb_spec y x) as [->|Hne].
  - exists 0. split; [reflexivity | simpl; lia].
  - inversion H; subst; [congruence |].
    destruct IH as (i & E & Hi); [assumption |].
    exists (S i). rewrite E. split; [reflexivity | simpl; lia].
Qed.

Lemma first_position_member (xs : list string) (x : string) (i : nat) :
  first_position xs x i -> x ∈ xs.
Proof. intros [H _]. eapply list_elem_of_lookup_2; exact H. Qed.

Lemma getitem_lookup {A : Type} (xs : list A) (i : nat) (a : A) :
  getitem xs i = Ok a <-> xs !! i = Some a.
Proof.
  unfold getitem. destruct (xs !! i); split; congruence.
Qed.

Lemma of_value_encodes (v : Z) (r : Result) :
  ResultEnum.of_value v = Ok r <-> encodes v r.
Proof.
  unfold ResultEnum.of_value, encodes.
  destruct (Z.eqb_spec v 1); [subst; split; [intros [= <-]; tauto | intros [[_ ->]|[[? _]|[? _]]]; [reflexivity | lia | lia]] |].
  destruct (Z.eqb_spec v 0); [subst; split; [intros [= <-]; tauto | intros [[? _]|[[_ ->]|[? _]]]; [lia | reflexivity | lia]] |].
  destruct (Z.eqb_spec v (-1)); [subst; split; [intros [= <-]; tauto | intros [[? _]|[[? _]|[_ ->]]]; [lia | lia | reflexivity]] |].
  split; [discriminate | intros [[? _]|[[? _]|[? _]]]; lia].
Qed.

End ListFacts.

(** ** HumanPlayer.ask_move *)

(** One round of the prompt loop is one [input] followed by
    [parse_move]; an answer that is not a selection starts the next
    round on the console the [input] left behind. *)
Lemma ask_loop_round (question_str : string) (selections : list string)
    (w : World) :
  HumanPlayer.ask_loop question_str selections (stdin w) (stdout w) =
    match input question_str w with
    | Raise e => Raise e
    | Ok (answer, w') =>
        match HumanPlayer.parse_move answer selections with
        | Some parsed_move => Ok (parsed_move, (stdin w', stdout w'))
        | None =>
            HumanPlayer.ask_loop question_str selections (stdin w') (stdout w')
        end
    end.
Proof.
  destruct w as [[|line rest] out r pos]; reflexivity.
Qed.

(** ** SelectionSet.get_result *)

Section GetResult.

Variable ss : SelectionSet.t.

Let selections := SelectionSet.selections ss.
Let relations := SelectionSet.relations ss.

(** Once both assertions pass, the call is the evaluation of the two
    matrix lookups. *)
Lemma get_result_members (a b : string) (i j : nat) :
  index selections a = Ok i ->
  index selections b = Ok j ->
  SelectionSet.get_result ss a b =
    (row1 <- getitem relations i ;;
     v12 <- getitem row1 j ;;
     r1 <- ResultEnum.of_value v12 ;;
     row2 <- getitem relations j ;;
     v21 <- getitem row2 i ;;
     r2 <- ResultEnum.of_value v21 ;;
     Ok (r1, r2)).
Proof.
  intros Ha Hb. unfold SelectionSet.get_result.
  assert (Ca : contains a selections = true).
  { apply contains_elem_of. eapply first_position_member.
    apply index_first_position. exact Ha. }
  assert (Cb : contains b selections = true).
  { apply contains_elem_of. eapply first_position_member.
    apply index_first_position. exact Hb. }
  fold selections relations. rewrite Ca, Cb, Ha, Hb. reflexivity.
Qed.

(** A call that returns has passed both assertions, found both
    positions and read both entries. *)
Lemma get_result_returns_inv (a b : string) (r1 r2 : Result) :
  SelectionSet.get_result ss a b = Ok (r1, r2) ->
  exists i j v12 v21,
    index selections a = Ok i /\ index selections b = Ok j /\
    entry relations i j = Some v12 /\ entry relations j i = Some v21 /\
    ResultEnum.of_value v12 = Ok r1 /\ ResultEnum.of_value v21 = Ok r2.
Proof.
  unfold SelectionSet.get_result. fold selections relations.
  destruct (contains a selections); simpl; [| discriminate].
  destruct (contains b selections); simpl; [| discriminate].
  destruct (index selections a) as [i|] eqn:Ha; simpl; [| discriminate].
  destruct (index selections b) as [j|] eqn:Hb; simpl; [| discriminate].
  unfold getitem, entry.
  destruct (relations !! i) as [row1|] eqn:R1; simpl; [| discriminate].
  destruct (row1 !! j) as [v12|] eqn:L12; simpl; [| discriminate].
  destruct (ResultEnum.of_value v12) as [r1'|] eqn:E1; simpl; [| discriminate].
  destruct (relations !! j) as [row2|] eqn:R2; simpl; [| discriminate].
  destruct (row2 !! i) as [v21|] eqn:L21; simpl; [| discriminate].
  destruct (ResultEnum.of_value v21) as [r2'|] eqn:E2; simpl; [| discriminate].
  intros [= <- <-]. exists i, j, v12, v21.
  rewrite R1, R2. repeat split; assumption || reflexivity.
Qed.

Lemma get_result_of_entries (a b : string) (i j : nat) (v12 v21 : Z)
    (r1 r2 : Result) :
  index selections a = Ok i ->
  index selections b = Ok j ->
  entry relations i j = Some v12 ->
  entry relations j i = Some v21 ->
  ResultEnum.of_value v12 = Ok r1 ->
  ResultEnum.of_value v21 = Ok r2 ->
  SelectionSet.get_result ss a b = Ok (r1, r2).
Proof.
  intros Ha Hb E12 E21 V1 V2.
  rewrite (get_result_members a b i j Ha Hb).
  unfold entry in E12, E21. unfold getitem.
  destruct (relations !! i) as [row1|]; [| discriminate].
  simpl. rewrite E12. simpl. rewrite V1. simpl.
  destruct (relations !! j) as [row2|]; [| discriminate].
  simpl. rewrite E21. simpl. rewrite V2. reflexivity.
Qed.

End GetResult.

Section GetResultErrors.

Variable ss : SelectionSet.t.

(** After the assertions, only lookups and [Result(...)] can fail, and
    they raise other exceptions. *)
Lemma lookups_not_assertion_error (i j : nat) :
  ~ is_assertion_error
      (row1 <- getitem (SelectionSet.relations ss) i ;;
       v12 <- getitem row1 j ;;
       r1 <- ResultEnum.of_value v12 ;;
       row2 <- getitem (SelectionSet.relations ss) j ;;
       v21 <- getitem row2 i ;;
       r2 <- ResultEnum.of_value v21 ;;
       Ok (r1, r2)).
Proof.
  intros [msg H]. revert H. unfold getitem, ResultEnum.of_value.
  repeat (match goal with
          | |- context [match ?x !! ?k with _ => _ end] => destruct (x !! k)
          | |- context [if ?c then _ else _] => destruct c
          end; simpl); discriminate.
Qed.

Lemma well_shaped_entry (i j : nat) :
  well_shaped ss ->
  i < length (SelectionSet.selections ss) ->
  j < length (SelectionSet.selections ss) ->
  exists v r, entry (SelectionSet.relations ss) i j = Some v /\
              ResultEnum.of_value v = Ok r.
Proof.
  intros [Hlen Hrows] Hi Hj. unfold entry.
  destruct (lookup_lt_is_Some_2 (SelectionSet.relations ss) i) as [row Hrow];
    [lia |].
  rewrite Hrow.
  destruct (proj1 (Forall_lookup _ _) Hrows i row Hrow) as [Hrl Hvals].
  destruct (lookup_lt_is_Some_2 row j) as [v Hv]; [lia |].
  exists v.
  destruct (proj1 (Forall_lookup _ _) Hvals j v Hv) as [ -> | [ -> | -> ] ];
    eexists; (split; [exact Hv | reflexivity]).
Qed.

(** On a selection set of the prescribed shape, two members always
    get a result. *)
Lemma get_result_well_shaped (a b : string) :
  well_shaped ss ->
  a ∈ SelectionSet.selections ss ->
  b ∈ SelectionSet.selections ss ->
  returns (SelectionSet.get_result ss a b).
Proof.
  intros Hshape H1 H2.
  destruct (index_of_member _ _ H1) as (i & Hi & Li).
  destruct (index_of_member _ _ H2) as (j & Hj & Lj).
  destruct (well_shaped_entry i j Hshape Li Lj) as (v12 & r1 & E12 & V1).
  destruct (well_shaped_entry j i Hshape Lj Li) as (v21 & r2 & E21 & V2).
  exists (r1, r2).
  exact (get_result_of_entries ss _ _ i j v12 v21 r1 r2 Hi Hj E12 E21 V1 V2).
Qed.

End GetResultErrors.

(** C1: for member selections whose (first) positions in [selections]
    are [i] and [j], [get_result] returns the outcomes encoded by
    [relations[i][j]] and [relations[j][i]], where 1 is WIN, 0 is TIE and
    -1 is LOSE.  The method is a function of the selection set and its
    two arguments: it writes to no attribute, so the selection set is the
    same after the call. *)
Theorem get_result_payoff (ss : SelectionSet.t) (selection1 selection2 : string)
    (i j : nat) (v12 v21 : Z) (r1 r2 : Result) :
  first_position (SelectionSet.selections ss) selection1 i ->
  first_position (SelectionSet.selections ss) selection2 j ->
  entry (SelectionSet.relations ss) i j = Some v12 ->
  entry (SelectionSet.relations ss) j i = Some v21 ->
  encodes v12 r1 ->
  encodes v21 r2 ->
  SelectionSet.get_result ss selection1 selection2 = Ok (r1, r2).
Proof.
  intros P1 P2 E12 E21 V1 V2.
  apply (get_result_of_entries ss selection1 selection2 i j v12 v21).
  - apply index_first_position; exact P1.
  - apply index_first_position; exact P2.
  - exact E12.
  - exact E21.
  - apply of_value_encodes; exact V1.
  - apply of_value_encodes; exact V2.
Qed.

Lemma get_result_payoff_witness :
  SelectionSet.get_result RockPaperScissors.s "rock" "scissors" = Ok (WIN, LOSE).
Proof.
  apply (get_result_payoff RockPaperScissors.s "rock" "scissors" 0 2 1 (-1)).
  - split; [reflexivity | intros k y Hk; lia].
  - split; [reflexivity |].
    intros [|[|k]] y Hk; simpl; try lia; intros [= <-]; discriminate.
  - reflexivity.
  - reflexivity.
  - left; split; reflexivity.
  - right; right; split; reflexivity.
Defined.

(** C2: [get_result] fails its assertion (the invalid-selection error)
    exactly when one of the two arguments is not a member of
    [selections]; the first argument is checked first, the second is
    checked on its own once the first has passed; and on a selection set
    of the shape the data model prescribes, two members always get a
    result. *)
Theorem get_result_invalid_selection (ss : SelectionSet.t)
    (selection1 selection2 : string) :
  (is_assertion_error (SelectionSet.get_result ss selection1 selection2) <->
     (selection1 ∉ SelectionSet.selections ss \/
      selection2 ∉ SelectionSet.selections ss)) /\
  (selection1 ∉ SelectionSet.selections ss ->
     SelectionSet.get_result ss selection1 selection2 =
       Raise (AssertionError (selection1 +:+ " is not a valid selection"))) /\
  (selection1 ∈ SelectionSet.selections ss ->
   selection2 ∉ SelectionSet.selections ss ->
     SelectionSet.get_result ss selection1 selection2 =
       Raise (AssertionError (selection2 +:+ " is not a valid selection"))) /\
  (well_shaped ss ->
   selection1 ∈ SelectionSet.selections ss ->
   selection2 ∈ SelectionSet.selections ss ->
     returns (SelectionSet.get_result ss selection1 selection2)).
Proof.
  assert (F1 : selection1 ∉ SelectionSet.selections ss ->
               SelectionSet.get_result ss selection1 selection2 =
                 Raise (AssertionError (selection1 +:+ " is not a valid selection"))).
  { intros H. apply contains_false in H.
    unfold SelectionSet.get_result. rewrite H. reflexivity. }
  assert (F2 : selection1 ∈ SelectionSet.selections ss ->
               selection2 ∉ SelectionSet.selections ss ->
               SelectionSet.get_result ss selection1 selection2 =
                 Raise (AssertionError (selection2 +:+ " is not a valid selection"))).
  { intros H1 H2. apply contains_elem_of in H1. apply contains_false in H2.
    unfold SelectionSet.get_result. rewrite H1, H2. reflexivity. }
  split; [| split; [exact F1 | split; [exact F2 |]]].
  - destruct (contains selection1 (SelectionSet.selections ss)) eqn:C1.
    + apply contains_elem_of in C1.
      destruct (contains selection2 (SelectionSet.selections ss)) eqn:C2.
      * apply contains_elem_of in C2. split.
        -- intros Herr. exfalso.
           destruct (index_of_member _ _ C1) as (i & Hi & _).
           destruct (index_of_member _ _ C2) as (j & Hj & _).
           rewrite (get_result_members ss _ _ i j Hi Hj) in Herr.
           exact (lookups_not_assertion_error ss i j Herr).
        -- intros [H|H]; contradiction.
      * apply contains_false in C2. split.
        -- intros _. right. exact C2.
        -- intros _. eexists. apply F2; assumption.
    + apply contains_false in C1. split.
      * intros _. left. exact C1.
      * intros _. eexists. apply F1; assumption.
  - apply get_result_well_shaped.
Qed.

Lemma get_result_invalid_selection_witness :
  SelectionSet.get_result RockPaperScissors.s "lizard" "rock" =
    Raise (AssertionError "lizard is not a valid selection") /\
  SelectionSet.get_result RockPaperScissors.s "rock" "spock" =
    Raise (AssertionError "spock is not a valid selection") /\
  returns (SelectionSet.get_result RockPaperScissors.s "rock" "paper").
Proof.
  split; [| split].
  - apply (proj1 (proj2 (get_result_invalid_selection
                           RockPaperScissors.s "lizard" "rock"))).
    apply contains_false. reflexivity.
  - apply (proj1 (proj2 (proj2 (get_result_invalid_selection
                                  RockPaperScissors.s "rock" "spock")))).
    + apply contains_elem_of. reflexivity.
    + apply contains_false. reflexivity.
  - apply (proj2 (proj2 (proj2 (get_result_invalid_selection
                                  RockPaperScissors.s "rock" "paper")))).
    + split; [reflexivity |]. simpl.
      repeat (constructor;
              [split; [reflexivity | repeat (constructor; [lia |]); constructor] |]).
      constructor.
    + apply contains_elem_of. reflexivity.
    + apply contains_elem_of. reflexivity.
Defined.

(** C3: swapping the arguments swaps the components: when
    [get_result(a, b)] returns [(r1, r2)], [get_result(b, a)] returns
    [(r2, r1)]. *)
Theorem get_result_swap (ss : SelectionSet.t) (a b : string) (r1 r2 : Result) :
  SelectionSet.get_result ss a b = Ok (r1, r2) ->
  SelectionSet.get_result ss b a = Ok (r2, r1).
Proof.
  intros H.
  destruct (get_result_returns_inv ss a b r1 r2 H)
    as (i & j & v12 & v21 & Ha & Hb & E12 & E21 & V1 & V2).
  exact (get_result_of_entries ss b a j i v21 v12 r2 r1 Hb Ha E21 E12 V2 V1).
Qed.

Lemma get_result_swap_witness :
  SelectionSet.get_result RockPaperScissors.s "paper" "scissors" = Ok (LOSE, WIN) /\
  SelectionSet.get_result RockPaperScissors.s "scissors" "paper" = Ok (WIN, LOSE).
Proof.
  split; [reflexivity |].
  apply (get_result_swap RockPaperScissors.s "paper" "scissors" LOSE WIN).
  reflexivity.
Defined.

(** C4: on a selection set whose diagonal entries all encode TIE, a
    member selection played against itself gives (TIE, TIE). *)
Theorem get_result_self_tie (ss : SelectionSet.t) (a : string) :
  diagonal_ties ss ->
  a ∈ SelectionSet.selections ss ->
  SelectionSet.get_result ss a a = Ok (TIE, TIE).
Proof.
  intros Hdiag Ha.
  destruct (index_of_member _ _ Ha) as (i & Hi & Li).
  apply (get_result_of_entries ss a a i i 0 0 TIE TIE Hi Hi);
    auto using Hdiag.
Qed.

Lemma get_result_self_tie_witness :
  SelectionSet.get_result RockPaperScissors.s "paper" "paper" = Ok (TIE, TIE).
Proof.
  apply (get_result_self_tie RockPaperScissors.s "paper").
  - intros [|[|[|i]]] Hi; simpl in Hi; try lia; reflexivity.
  - apply contains_elem_of. reflexivity.
Defined.

(** ** GameHandler: tallies *)

Section Tallies.

Import GameHandler.

Lemma tmp_dct_lookup (r : Result) : tmp_dct !! r = Some 0.
Proof. destruct r; reflexivity. Qed.

Lemma tally_sum_tmp_dct : tally_sum tmp_dct = Some 0.
Proof. reflexivity. Qed.

Lemma tally_sum_is_Some (d : gmap Result nat) (n : nat) (r : Result) :
  tally_sum d = Some n -> exists k, d !! r = Some k.
Proof.
  unfold tally_sum.
  destruct (d !! WIN) eqn:W; [| discriminate].
  destruct (d !! TIE) eqn:T; [| discriminate].
  destruct (d !! LOSE) eqn:L; [| discriminate].
  intros _. destruct r; eauto.
Qed.

Lemma tally_sum_bump (d : gmap Result nat) (n k : nat) (r : Result) :
  tally_sum d = Some n -> d !! r = Some k ->
  tally_sum (<[r := k + 1]> d) = Some (S n).
Proof.
  unfold tally_sum.
  destruct (d !! WIN) as [w|] eqn:W; [| discriminate].
  destruct (d !! TIE) as [t|] eqn:T; [| discriminate].
  destruct (d !! LOSE) as [l|] eqn:L; [| discriminate].
  intros [= <-] Hr.
  destruct r;
    repeat (rewrite lookup_insert_eq || (rewrite lookup_insert_ne by discriminate));
    rewrite ?W, ?T, ?L; f_equal; assert (k = w \/ k = t \/ k = l) by
      (rewrite Hr in *; first [left; congruence | right; left; congruence | right; right; congruence]);
    congruence || (simplify_eq; lia).
Qed.

Lemma increment_player1 m n1 n2 r :
  tallies m n1 n2 ->
  exists m', increment m "player1" r = Ok m' /\ tallies m' (S n1) n2.
Proof.
  intros (d1 & d2 & H1 & H2 & S1 & S2).
  destruct (tally_sum_is_Some d1 n1 r S1) as [k Hk].
  unfold increment, dict_get. rewrite H1. simpl. rewrite Hk. simpl.
  eexists. split; [reflexivity |].
  exists (<[r := k + 1]> d1), d2. split; [apply lookup_insert_eq |].
  split; [rewrite lookup_insert_ne by discriminate; exact H2 |].
  split; [eapply tally_sum_bump; eassumption | exact S2].
Qed.

Lemma increment_player2 m n1 n2 r :
  tallies m n1 n2 ->
  exists m', increment m "player2" r = Ok m' /\ tallies m' n1 (S n2).
Proof.
  intros (d1 & d2 & H1 & H2 & S1 & S2).
  destruct (tally_sum_is_Some d2 n2 r S2) as [k Hk].
  unfold increment, dict_get. rewrite H2. simpl. rewrite Hk. simpl.
  eexists. split; [reflexivity |].
  exists d1, (<[r := k + 1]> d2).
  split; [rewrite lookup_insert_ne by discriminate; exact H1 |].
  split; [apply lookup_insert_eq |].
  split; [exact S1 | eapply tally_sum_bump; eassumption].
Qed.

(** The loop over the history never fails and adds one to each
    player's total per turn. *)
Lemma tally_total (hist : list turn) m n1 n2 :
  tallies m n1 n2 ->
  exists m', tally hist m = Ok m' /\
             tallies m' (n1 + length hist) (n2 + length hist).
Proof.
  revert m n1 n2. induction hist as [|t rest IH]; intros m n1 n2 Hm; simpl.
  - exists m. rewrite !Nat.add_0_r. split; [reflexivity | exact Hm].
  - destruct (increment_player1 m n1 n2 (player1_result t) Hm) as (c1 & E1 & Hc1).
    rewrite E1. simpl.
    destruct (increment_player2 c1 (S n1) n2 (player2_result t) Hc1) as (c2 & E2 & Hc2).
    rewrite E2. simpl.
    destruct (IH c2 (S n1) (S n2) Hc2) as (m' & E & Hm').
    exists m'. split; [exact E |].
    replace (n1 + S (length rest)) with (S n1 + length rest) by lia.
    replace (n2 + S (length rest)) with (S n2 + length rest) by lia.
    exact Hm'.
Qed.

Lemma initial_tallies :
  tallies (<["player2" := tmp_dct]> (<["player1" := tmp_dct]> ∅)) 0 0.
Proof.
  exists tmp_dct, tmp_dct. repeat split; reflexivity.
Qed.

(** [get_current_result] always returns, leaves the state as it found
    it, and each player's tally sums to the length of the history. *)
Lemma get_current_result_total (s : State) :
  exists m, get_current_result s = Ok (m, s) /\
            tallies m (length (history (self s))) (length (history (self s))).
Proof.
  destruct (tally_total (history (self s)) _ 0 0 initial_tallies) as (m & E & Hm).
  exists m. unfold get_current_result, bindM, gets, lift. rewrite E.
  split; [reflexivity | exact Hm].
Qed.

Lemma get_current_result_str_total (s : State) :
  exists line, get_current_result_str s = Ok (line, s).
Proof.
  destruct (get_current_result_total s) as (m & E & d1 & d2 & H1 & H2 & S1 & S2).
  unfold get_current_result_str, bindM. rewrite E.
  unfold gets, lift, dict_get. rewrite H1, H2. simpl.
  destruct (tally_sum_is_Some d1 _ WIN S1) as [? ->].
  destruct (tally_sum_is_Some d1 _ TIE S1) as [? ->].
  destruct (tally_sum_is_Some d1 _ LOSE S1) as [? ->].
  destruct (tally_sum_is_Some d2 _ WIN S2) as [? ->].
  destruct (tally_sum_is_Some d2 _ TIE S2) as [? ->].
  destruct (tally_sum_is_Some d2 _ LOSE S2) as [? ->].
  simpl. eexists. reflexivity.
Qed.

End Tallies.

(** ** GameHandler: turns *)

Section Turns.

Import GameHandler.

(** A turn completes exactly when both players produce a move and the
    selection set resolves the pair; it then appends one record to the
    handler's history, lets both players observe, and prints twice. *)
Lemma get_result_of_moves_returns (ss : SelectionSet.t)
    (move1 move2 : option string) (a b : string) (r1 r2 : Result) :
  SelectionSet.get_result_of_moves ss move1 move2 = Ok (a, b, (r1, r2)) <->
  move1 = Some a /\ move2 = Some b /\
  SelectionSet.get_result ss a b = Ok (r1, r2).
Proof.
  unfold SelectionSet.get_result_of_moves. split.
  - destruct move1 as [x|]; [| discriminate].
    destruct move2 as [y|].
    + destruct (SelectionSet.get_result ss x y) as [[q1 q2]|] eqn:E; simpl;
        [| discriminate].
      intros [= <- <- <- <-]. split; [reflexivity |]. split; [reflexivity |].
      exact E.
    + destruct (negb (contains x (SelectionSet.selections ss))); discriminate.
  - intros (-> & -> & ->). reflexivity.
Qed.

Lemma play_turn_completes (s s' : State) (u : unit) :
  play_turn s = Ok (u, s') ->
  exists m1 w1 m2 w2 r1 r2 line1 line2,
    Player_play (store s (player1 (self s))) (game (self s)) (world s)
      = Ok (Some m1, w1) /\
    Player_play (store s (player2 (self s))) (game (self s)) w1
      = Ok (Some m2, w2) /\
    SelectionSet.get_result (Game.selection_set (game (self s))) m1 m2
      = Ok (r1, r2) /\
    s' = after_turn s m1 m2 w2 r1 r2 line1 line2.
Proof.
  cbv [play_turn bindM gets io lift update_player add_turn_to_history
       get_result_str ret]. simpl.
  destruct (Player_play (store s (player1 (self s))) (game (self s)) (world s))
    as [[mv1 w1]|] eqn:P1; simpl; [| discriminate].
  destruct (Player_play (store s (player2 (self s))) (game (self s)) w1)
    as [[mv2 w2]|] eqn:P2; simpl; [| discriminate].
  destruct (SelectionSet.get_result_of_moves
              (Game.selection_set (game (self s))) mv1 mv2)
    as [[[m1 m2] [r1 r2]]|] eqn:G0; simpl; [| discriminate].
  apply get_result_of_moves_returns in G0. destruct G0 as (-> & -> & G).
  match goal with
  | |- context [get_current_result_str ?st] =>
      destruct (get_current_result_str_total st) as [line2 E]; rewrite E
  end.
  simpl. destruct u. intros [= <-].
  exists m1, w1, m2, w2, r1, r2. eexists. exists line2.
  repeat split; first [assumption | reflexivity].
Qed.

Lemma play_turn_runs (s : State) (m1 m2 : string) (w1 w2 : World)
    (r1 r2 : Result) :
  Player_play (store s (player1 (self s))) (game (self s)) (world s)
    = Ok (Some m1, w1) ->
  Player_play (store s (player2 (self s))) (game (self s)) w1
    = Ok (Some m2, w2) ->
  SelectionSet.get_result (Game.selection_set (game (self s))) m1 m2
    = Ok (r1, r2) ->
  exists line1 line2,
    play_turn s = Ok (tt, after_turn s m1 m2 w2 r1 r2 line1 line2).
Proof.
  intros P1 P2 G.
  cbv [play_turn bindM gets io lift update_player add_turn_to_history
       get_result_str ret]. simpl.
  rewrite P1. simpl. rewrite P2. simpl. rewrite G. simpl.
  match goal with
  | |- context [get_current_result_str ?st] =>
      destruct (get_current_result_str_total st) as [line2 E]; rewrite E
  end.
  simpl. eexists. exists line2. reflexivity.
Qed.

Lemma play_turn_history (s s' : State) (u : unit) :
  play_turn s = Ok (u, s') ->
  length (history (self s')) = S (length (history (self s))) /\
  game (self s') = game (self s) /\
  player1 (self s') = player1 (self s) /\
  player2 (self s') = player2 (self s).
Proof.
  intros H.
  destruct (play_turn_completes s s' u H)
    as (m1 & w1 & m2 & w2 & r1 & r2 & l1 & l2 & _ & _ & _ & ->).
  simpl. rewrite length_app. simpl. repeat split; lia.
Qed.

Lemma turns_history (n : nat) (s s' : State) :
  turns n s = Ok s' ->
  length (history (self s')) = length (history (self s)) + n.
Proof.
  revert s. induction n as [|n IH]; intros s; simpl.
  - intros [= <-]. lia.
  - destruct (play_turn s) as [[u s1]|] eqn:E; simpl; [| discriminate].
    intros H. apply IH in H.
    destruct (play_turn_history s s1 u E) as [L _]. lia.
Qed.

(** ** GameHandler: the loop of [play] *)

Lemma play_loop_unreachable_limit (fuel : nat) (m i : Z) (s s' : State) :
  (m <= i)%Z -> play_loop fuel (Some m) i s <> Returned s'.
Proof.
  revert i s. induction fuel as [|fuel IH]; intros i s Hi; simpl.
  - discriminate.
  - destruct (play_turn s) as [[u s1]|]; [| discriminate].
    destruct (Z.eqb_spec (i + 1) m) as [E|_]; [lia |].
    apply IH. lia.
Qed.

Lemma play_loop_no_limit (fuel : nat) (i : Z) (s s' : State) :
  play_loop fuel None i s <> Returned s'.
Proof.
  revert i s. induction fuel as [|fuel IH]; intros i s; simpl.
  - discriminate.
  - destruct (play_turn s) as [[u s1]|]; [| discriminate]. apply IH.
Qed.

(** With a limit still ahead, the loop breaks after exactly the
    missing number of turns. *)
Lemma play_loop_reaches_limit (k : nat) (fuel : nat) (m i : Z) (s s' : State) :
  (m = i + Z.of_nat (S k))%Z ->
  S k <= fuel ->
  turns (S k) s = Ok s' ->
  play_loop fuel (Some m) i s = Returned s'.
Proof.
  revert fuel i s. induction k as [|k IH]; intros fuel i s Hm Hfuel Hturns.
  - destruct fuel as [|fuel]; [lia |]. simpl in *.
    destruct (play_turn s) as [[u s1]|]; simpl in Hturns; [| discriminate].
    injection Hturns as <-.
    destruct (Z.eqb_spec (i + 1) m); [reflexivity | lia].
  - destruct fuel as [|fuel]; [lia |].
    change (turns (S (S k)) s) with (r <- play_turn s ;; turns (S k) r.2) in Hturns.
    simpl play_loop.
    destruct (play_turn s) as [[u s1]|]; simpl in Hturns; [| discriminate].
    destruct (Z.eqb_spec (i + 1) m); [lia |].
    apply IH; [lia | lia | exact Hturns].
Qed.

(** A positive limit: [play] returns after exactly that many turns. *)
Lemma play_positive_limit (n : nat) (fuel : nat) (s s' : State) :
  1 <= n -> n <= fuel ->
  turns n s = Ok s' ->
  play fuel (Some (Z.of_nat n)) s = Returned s'.
Proof.
  intros Hn Hfuel Hturns. destruct n as [|k]; [lia |].
  apply (play_loop_reaches_limit k); [lia | exact Hfuel | exact Hturns].
Qed.

(** No limit: [play] never reaches its [break]. *)
Lemma play_without_limit (fuel : nat) (s s' : State) :
  play fuel None s <> Returned s'.
Proof. apply play_loop_no_limit. Qed.

End Turns.

Section ComputerTurns.

Import GameHandler.

Lemma random_choice_member (seq : list string) (w : World) :
  seq <> [] ->
  exists x, random_choice seq w
            = Ok (x, mkWorld (stdin w) (stdout w) (rand w) (S (rand_pos w)))
            /\ x ∈ seq.
Proof.
  intros Hne. destruct seq as [|y ys]; [congruence |].
  unfold random_choice, getitem.
  destruct (lookup_lt_is_Some_2 (y :: ys)
              (rand w (rand_pos w) mod length (y :: ys))) as [x Hx].
  { apply Nat.mod_upper_bound. simpl. lia. }
  rewrite Hx. simpl. exists x. split; [reflexivity |].
  eapply list_elem_of_lookup_2. exact Hx.
Qed.

Lemma computers_turn (s : State) :
  computers_ready s ->
  exists s', play_turn s = Ok (tt, s') /\ computers_ready s' /\
             length (history (self s')) = S (length (history (self s))).
Proof.
  intros (Hshape & Hne & Hcls).
  pose (w1 := mkWorld (stdin (world s)) (stdout (world s)) (rand (world s))
                      (S (rand_pos (world s)))).
  pose (w2 := mkWorld (stdin w1) (stdout w1) (rand w1) (S (rand_pos w1))).
  destruct (random_choice_member _ (world s) Hne) as (m1 & E1 & M1).
  destruct (random_choice_member _ w1 Hne) as (m2 & E2 & M2).
  destruct (get_result_well_shaped _ m1 m2 Hshape M1 M2) as [[r1 r2] G].
  destruct (play_turn_runs s m1 m2 w1 w2 r1 r2) as (l1 & l2 & E).
  - unfold Player_play. rewrite Hcls.
    unfold ComputerPlayer.play, ComputerPlayer.play_uniformly_random.
    rewrite E1. reflexivity.
  - unfold Player_play. rewrite Hcls.
    unfold ComputerPlayer.play, ComputerPlayer.play_uniformly_random.
    rewrite E2. reflexivity.
  - exact G.
  - eexists. split; [exact E |]. split.
    + split; [exact Hshape | split; [exact Hne |]].
      intros q. simpl. destruct (Nat.eqb q (player2 (self s)));
        destruct (Nat.eqb q (player1 (self s))); simpl; apply Hcls.
    + simpl. rewrite length_app. simpl. lia.
Qed.

Lemma computers_keep_running (fuel : nat) (m i : Z) (s : State) :
  (m <= i)%Z ->
  computers_ready s ->
  exists s', play_loop fuel (Some m) i s = Running s' /\
             length (history (self s')) = length (history (self s)) + fuel.
Proof.
  revert i s. induction fuel as [|fuel IH]; intros i s Hi Hs; simpl.
  - exists s. split; [reflexivity | lia].
  - destruct (computers_turn s Hs) as (s1 & E & Hs1 & L).
    rewrite E. destruct (Z.eqb_spec (i + 1) m); [lia |].
    destruct (IH (i + 1)%Z s1) as (s' & E' & L'); [lia | exact Hs1 |].
    exists s'. split; [exact E' | lia].
Qed.

Lemma computer_match_ready (w : World) : computers_ready (ComputerMatch.start w).
Proof.
  split; [| split].
  - split; [reflexivity |]. simpl.
    repeat (constructor;
            [split; [reflexivity | repeat (constructor; [lia |]); constructor] |]).
    constructor.
  - discriminate.
  - intros [|q]; reflexivity.
Qed.

End ComputerTurns.

(** C5: starting from a freshly constructed handler, after [N] completed
    calls of [play_turn] the handler's history has length [N], and
    [get_current_result] returns, for each of the two players, counts of
    WIN, TIE and LOSE that sum to [N]. *)
Theorem tallies_sum_to_turns (g : Game.t) (p1 p2 : GameHandler.ref)
    (objects : GameHandler.ref -> Player.t) (w : World) (N : nat)
    (s' : GameHandler.State) :
  GameHandler.turns N
    (GameHandler.mkState (GameHandler.init g p1 p2) objects w) = Ok s' ->
  length (GameHandler.history (GameHandler.self s')) = N /\
  exists m, GameHandler.get_current_result s' = Ok (m, s') /\ tallies m N N.
Proof.
  intros H. apply turns_history in H. simpl in H.
  split; [exact H |].
  destruct (get_current_result_total s') as (m & E & Hm).
  exists m. split; [exact E |]. rewrite H in Hm. exact Hm.
Qed.

Lemma tallies_sum_to_turns_witness :
  exists s',
    GameHandler.turns 2
      (RockPaperScissors.start
         (mkWorld ["rock"; "lizard"; "paper"] [] (fun n => n + 2) 0)) = Ok s' /\
    length (GameHandler.history (GameHandler.self s')) = 2 /\
    exists m, GameHandler.get_current_result s' = Ok (m, s') /\ tallies m 2 2.
Proof.
  destruct (GameHandler.turns 2
              (RockPaperScissors.start
                 (mkWorld ["rock"; "lizard"; "paper"] [] (fun n => n + 2) 0)))
    as [s'|e] eqn:E.
  - exists s'. split; [reflexivity |].
    exact (tallies_sum_to_turns RockPaperScissors.g 0 1 RockPaperScissors.objects
             _ 2 s' E).
  - vm_compute in E. discriminate E.
Defined.

(** C6, at the limit 0: [play(0)] plays its first turn before it looks at
    the counter, which is then 1 and from there on never equal to 0.  The
    loop has no way to reach its [break], and a match between two
    computer players is still running, with one more record in the
    history per iteration, however long it is observed. *)
Theorem play_zero_limit_never_returns (fuel : nat) (w : World) :
  (forall s s', GameHandler.play fuel (Some 0%Z) s
                = GameHandler.Returned s' -> False) /\
  exists s', GameHandler.play fuel (Some 0%Z) (ComputerMatch.start w)
             = GameHandler.Running s' /\
             length (GameHandler.history (GameHandler.self s')) = fuel.
Proof.
  split.
  - intros s s'. apply play_loop_unreachable_limit. lia.
  - destruct (computers_keep_running fuel 0 0 (ComputerMatch.start w))
      as (s' & E & L); [lia | apply computer_match_ready |].
    exists s'. split; [exact E | exact L].
Qed.

(** ** ComputerPlayer: the weights of the weighted strategy *)

Section Weights.

Lemma count_filter (row : list Z) (v : Z) :
  count row v = length (filter (fun x => x = v) row).
Proof.
  induction row as [|y ys IH]; [reflexivity |]. simpl.
  destruct (Z.eqb_spec y v) as [->|Hne].
  - rewrite filter_cons_True by reflexivity. simpl. rewrite IH. reflexivity.
  - rewrite filter_cons_False by exact Hne. rewrite IH. reflexivity.
Qed.

Lemma weight_win_rate (row : list Z) :
  ComputerPlayer.weight row = Ok (win_rate row).
Proof.
  unfold ComputerPlayer.weight, win_rate, win_count, lose_count, truediv,
    float_quotient.
  rewrite !count_filter.
  set (w := length (filter (fun x => x = 1%Z) row)).
  set (l := length (filter (fun x => x = (-1)%Z) row)).
  destruct w as [|w]; destruct l as [|l]; reflexivity.
Qed.

(** Zero wins among at least one decided entry: the quotient is 0.0. *)
Lemma float_quotient_zero (l : nat) : float_quotient 0 (S l) = 0%float.
Proof. reflexivity. Qed.

(** On small counts the quotient is the machine division of the two
    counts converted to floats. *)
Example float_quotient_machine_division :
  float_quotient 2 3
  = PrimFloat.div (PrimFloat.of_uint63 (Uint63.of_Z 2)) (PrimFloat.of_uint63 (Uint63.of_Z 3)) /\
  float_quotient 1 3
  = PrimFloat.div (PrimFloat.of_uint63 (Uint63.of_Z 1)) (PrimFloat.of_uint63 (Uint63.of_Z 3)) /\
  float_quotient 7 9
  = PrimFloat.div (PrimFloat.of_uint63 (Uint63.of_Z 7)) (PrimFloat.of_uint63 (Uint63.of_Z 9)) /\
  float_quotient 5 5 = 1%float /\
  float_quotient 1 2 = 0.5%float.
Proof. repeat split; reflexivity. Qed.

Lemma win_rate_no_win (row : list Z) :
  win_count row = 0 -> is_zero (win_rate row).
Proof.
  intros H. unfold win_rate. rewrite H.
  destruct (lose_count row) as [|l]; [left; reflexivity |].
  right. simpl Nat.eqb. simpl andb. cbv iota.
  rewrite Nat.add_0_l, float_quotient_zero. reflexivity.
Qed.

Lemma all_losses_no_win (row : list Z) :
  Forall (fun v => v = (-1)%Z) row -> win_count row = 0.
Proof.
  unfold win_count. induction 1 as [|v vs Hv _ IH]; [reflexivity |].
  rewrite filter_cons_False by lia. exact IH.
Qed.

Lemma weights_loop_map (relations : list (list Z)) (acc : list number) :
  ComputerPlayer.weights_loop relations acc
  = Ok (acc ++ map win_rate relations).
Proof.
  revert acc. induction relations as [|row rest IH]; intros acc; simpl.
  - rewrite app_nil_r. reflexivity.
  - rewrite weight_win_rate. simpl. rewrite IH, <- app_assoc. reflexivity.
Qed.

End Weights.

(** C7: the weighted strategy computes one weight per row of
    [relations]; the weight of row [i] is winCount / (winCount +
    loseCount), the float this division gives on the number of entries
    equal to 1 and the number equal to 1 or -1 (ties are left out), and
    the integer 0 when both counts are zero; a row of -1 only has weight
    zero. *)
Theorem weighted_strategy_weights (game : Game.t) :
  exists ws,
    ComputerPlayer.selections_weights game = Ok ws /\
    length ws = length (SelectionSet.relations (Game.selection_set game)) /\
    (forall i row,
        SelectionSet.relations (Game.selection_set game) !! i = Some row ->
        ws !! i = Some (win_rate row)) /\
    (forall i row,
        SelectionSet.relations (Game.selection_set game) !! i = Some row ->
        win_count row = 0 -> lose_count row = 0 ->
        ws !! i = Some (Int 0)) /\
    (forall i row,
        SelectionSet.relations (Game.selection_set game) !! i = Some row ->
        Forall (fun v => v = (-1)%Z) row ->
        exists w, ws !! i = Some w /\ is_zero w).
Proof.
  exists (map win_rate (SelectionSet.relations (Game.selection_set game))).
  assert (L : forall i row,
             SelectionSet.relations (Game.selection_set game) !! i = Some row ->
             map win_rate (SelectionSet.relations (Game.selection_set game)) !! i
             = Some (win_rate row)).
  { intros i row H. rewrite list_lookup_fmap, H. reflexivity. }
  split; [| split; [| split; [| split]]].
  - unfold ComputerPlayer.selections_weights. rewrite weights_loop_map. reflexivity.
  - apply length_map.
  - exact L.
  - intros i row H Hw Hl. rewrite (L i row H). f_equal.
    unfold win_rate. rewrite Hw, Hl. reflexivity.
  - intros i row H Hall. exists (win_rate row). split; [exact (L i row H) |].
    apply win_rate_no_win, all_losses_no_win, Hall.
Qed.

Lemma weighted_strategy_weights_witness :
  exists ws,
    ComputerPlayer.selections_weights
      (Game.mk "four"
         (SelectionSet.mk ["a"; "b"; "c"; "d"]
            [[0; 1; -1; 1]; [-1; 0; 1; -1]; [1; -1; 0; 0]; [-1; -1; -1; -1]]%Z))
    = Ok ws /\
    ws !! 0 = Some (Float 0x1.5555555555555p-1%float) /\
    ws !! 1 = Some (Float 0x1.5555555555555p-2%float) /\
    ws !! 2 = Some (Float 0.5%float) /\
    exists w, ws !! 3 = Some w /\ is_zero w.
Proof.
  destruct (weighted_strategy_weights
              (Game.mk "four"
                 (SelectionSet.mk ["a"; "b"; "c"; "d"]
                    [[0; 1; -1; 1]; [-1; 0; 1; -1]; [1; -1; 0; 0];
                     [-1; -1; -1; -1]]%Z)))
    as (ws & E & _ & Hrate & _ & Hloss).
  exists ws. split; [exact E |]. split; [| split; [| split]].
  - rewrite (Hrate 0 [0; 1; -1; 1]%Z eq_refl). reflexivity.
  - rewrite (Hrate 1 [-1; 0; 1; -1]%Z eq_refl). reflexivity.
  - rewrite (Hrate 2 [1; -1; 0; 0]%Z eq_refl). reflexivity.
  - apply (Hloss 3 [-1; -1; -1; -1]%Z eq_refl). repeat constructor.
Defined.

(** ** Player.observe and the handler's read-only methods *)

(** C8: [observe] appends exactly one record, holding its four
    arguments, to the history of the player it is called on; it validates
    nothing and always returns; the player's name and class and the
    records already in the history stay as they were, and so do the other
    player objects, the handler and the console. *)
Theorem observe_appends_one_record (s : GameHandler.State) (r : GameHandler.ref)
    (player_move opponent_move : string) (player_result opponent_result : Result) :
  exists s',
    GameHandler.update_player r
      (fun p => Player.observe p player_move opponent_move
                  player_result opponent_result) s = Ok (tt, s') /\
    GameHandler.store s' r
      = Player.observe (GameHandler.store s r) player_move opponent_move
          player_result opponent_result /\
    Player.history (GameHandler.store s' r)
      = Player.history (GameHandler.store s r)
          ++ [Player.mkTurn player_move opponent_move
                player_result opponent_result] /\
    length (Player.history (GameHandler.store s' r))
      = S (length (Player.history (GameHandler.store s r))) /\
    (forall i t, Player.history (GameHandler.store s r) !! i = Some t ->
                 Player.history (GameHandler.store s' r) !! i = Some t) /\
    Player.name (GameHandler.store s' r) = Player.name (GameHandler.store s r) /\
    Player.cls (GameHandler.store s' r) = Player.cls (GameHandler.store s r) /\
    (forall q, q <> r -> GameHandler.store s' q = GameHandler.store s q) /\
    GameHandler.self s' = GameHandler.self s /\
    GameHandler.world s' = GameHandler.world s.
Proof.
  eexists. split; [reflexivity |]. simpl. rewrite Nat.eqb_refl. simpl.
  split; [reflexivity |]. split; [reflexivity |].
  split; [rewrite length_app; simpl; lia |].
  split; [intros i t H; apply lookup_app_l_Some; exact H |].
  split; [reflexivity |]. split; [reflexivity |].
  split; [| split; reflexivity].
  intros q Hq. destruct (Nat.eqb_spec q r); [contradiction | reflexivity].
Qed.

(** C9: [get_current_result] always returns and leaves the whole state
    (the handler with its history, the players, the console) as it found
    it; two calls in a row return the same mapping. *)
Theorem get_current_result_idempotent (s : GameHandler.State) :
  exists m,
    GameHandler.get_current_result s = Ok (m, s) /\
    GameHandler.bindM GameHandler.get_current_result
      (fun first =>
         GameHandler.bindM GameHandler.get_current_result
           (fun second => GameHandler.ret (first, second))) s
    = Ok ((m, m), s).
Proof.
  destruct (get_current_result_total s) as (m & E & _).
  exists m. split; [exact E |].
  unfold GameHandler.bindM. rewrite E, E. reflexivity.
Qed.

(** C10: on a freshly constructed handler, whose history is empty,
    [get_current_result] returns a mapping with an entry for "player1"
    and one for "player2", and in both the counts of WIN, TIE and LOSE
    are 0. *)
Theorem get_current_result_fresh (g : Game.t) (p1 p2 : GameHandler.ref)
    (objects : GameHandler.ref -> Player.t) (w : World) :
  exists m d1 d2,
    GameHandler.get_current_result
      (GameHandler.mkState (GameHandler.init g p1 p2) objects w)
    = Ok (m, GameHandler.mkState (GameHandler.init g p1 p2) objects w) /\
    m !! "player1" = Some d1 /\
    m !! "player2" = Some d2 /\
    (forall k, is_Some (m !! k) -> k = "player1" \/ k = "player2") /\
    (forall r, d1 !! r = Some 0) /\
    (forall r, d2 !! r = Some 0).
Proof.
  exists (<["player2" := GameHandler.tmp_dct]>
            (<["player1" := GameHandler.tmp_dct]> ∅)),
         GameHandler.tmp_dct, GameHandler.tmp_dct.
  split; [reflexivity |].
  split; [reflexivity |]. split; [reflexivity |].
  split; [| split; apply tmp_dct_lookup].
  intros k [d Hk].
  destruct (decide (k = "player2")) as [->|N2]; [right; reflexivity |].
  rewrite lookup_insert_ne in Hk by congruence.
  destruct (decide (k = "player1")) as [->|N1]; [left; reflexivity |].
  rewrite lookup_insert_ne in Hk by congruence.
  rewrite lookup_empty in Hk. discriminate.
Qed.

(** * Further properties *)

(** ** Result *)

(** X1: [Result(v)] and [.value] are inverse to each other: a member is
    recovered from its value, a successful [Result(v)] has value [v], and
    [Result(v)] raises [ValueError] exactly when [v] is none of 1, 0 and
    -1; the string of a member is its name in lower case. *)
Theorem result_value_round_trip (r : Result) (v : Z) :
  ResultEnum.of_value (ResultEnum.value r) = Ok r /\
  (ResultEnum.of_value v = Ok r <-> ResultEnum.value r = v) /\
  (ResultEnum.of_value v = Raise ValueError <->
     v <> 1%Z /\ v <> 0%Z /\ v <> (-1)%Z) /\
  ResultEnum.str r = lower (ResultEnum.name r).
Proof.
  split; [destruct r; reflexivity |]. split; [| split].
  - split.
    + intros H. apply of_value_encodes in H.
      destruct H as [[-> ->]|[[-> ->]|[-> ->]]]; reflexivity.
    + intros <-. destruct r; reflexivity.
  - unfold ResultEnum.of_value.
    destruct (Z.eqb_spec v 1); [split; [discriminate | lia] |].
    destruct (Z.eqb_spec v 0); [split; [discriminate | lia] |].
    destruct (Z.eqb_spec v (-1)); [split; [discriminate | lia] |].
    split; [intros _; lia | reflexivity].
  - destruct r; reflexivity.
Qed.

(** ** SelectionSet.get_result, continued *)

(** X2: a call of [get_result] that returns has two members as
    arguments, and the pair it returns is the pair of outcomes whose
    values are the entries of the matrix at their first positions. *)
Theorem get_result_returns_entries (ss : SelectionSet.t) (a b : string)
    (r1 r2 : Result) :
  SelectionSet.get_result ss a b = Ok (r1, r2) ->
  a ∈ SelectionSet.selections ss /\
  b ∈ SelectionSet.selections ss /\
  exists i j,
    first_position (SelectionSet.selections ss) a i /\
    first_position (SelectionSet.selections ss) b j /\
    entry (SelectionSet.relations ss) i j = Some (ResultEnum.value r1) /\
    entry (SelectionSet.relations ss) j i = Some (ResultEnum.value r2).
Proof.
  intros H.
  destruct (get_result_returns_inv ss a b r1 r2 H)
    as (i & j & v12 & v21 & Ha & Hb & E12 & E21 & V1 & V2).
  apply index_first_position in Ha, Hb.
  split; [eapply first_position_member; exact Ha |].
  split; [eapply first_position_member; exact Hb |].
  exists i, j. split; [exact Ha |]. split; [exact Hb |].
  apply of_value_encodes in V1, V2.
  split.
  - rewrite E12. f_equal.
    destruct V1 as [[-> ->]|[[-> ->]|[-> ->]]]; reflexivity.
  - rewrite E21. f_equal.
    destruct V2 as [[-> ->]|[[-> ->]|[-> ->]]]; reflexivity.
Qed.

Lemma get_result_returns_entries_witness :
  "scissors" ∈ SelectionSet.selections RockPaperScissors.s /\
  "rock" ∈ SelectionSet.selections RockPaperScissors.s /\
  exists i j,
    first_position (SelectionSet.selections RockPaperScissors.s) "scissors" i /\
    first_position (SelectionSet.selections RockPaperScissors.s) "rock" j /\
    entry (SelectionSet.relations RockPaperScissors.s) i j
      = Some (ResultEnum.value LOSE) /\
    entry (SelectionSet.relations RockPaperScissors.s) j i
      = Some (ResultEnum.value WIN).
Proof.
  apply (get_result_returns_entries RockPaperScissors.s "scissors" "rock" LOSE WIN).
  reflexivity.
Defined.

(** X3: on a matrix that negates under transposition, the two outcomes
    of a returned pair are opposite: a win faces a loss, a tie a tie. *)
Theorem get_result_complementary (ss : SelectionSet.t) (a b : string)
    (r1 r2 : Result) :
  anti_symmetric ss ->
  SelectionSet.get_result ss a b = Ok (r1, r2) ->
  r2 = opposite r1.
Proof.
  intros Hanti H.
  destruct (get_result_returns_inv ss a b r1 r2 H)
    as (i & j & v12 & v21 & _ & _ & E12 & E21 & V1 & V2).
  rewrite (Hanti i j v12 E12) in E21. injection E21 as <-.
  apply of_value_encodes in V1, V2.
  destruct V1 as [[-> ->]|[[-> ->]|[-> ->]]];
    destruct V2 as [[? ->]|[[? ->]|[? ->]]]; simpl; reflexivity || lia.
Qed.

Lemma rock_paper_scissors_anti_symmetric : anti_symmetric RockPaperScissors.s.
Proof.
  intros [|[|[|i]]] [|[|[|j]]] v; simpl; intros [= <-]; reflexivity.
Qed.

Lemma get_result_complementary_witness : LOSE = opposite WIN.
Proof.
  apply (get_result_complementary RockPaperScissors.s "rock" "scissors" WIN LOSE).
  - exact rock_paper_scissors_anti_symmetric.
  - reflexivity.
Defined.

(** X4: with two members as arguments, what goes wrong on a malformed
    matrix is told by the first entry that is at fault: a missing entry
    raises [IndexError], an entry that is none of 1, 0 and -1 raises
    [ValueError]; [relations[i][j]] is read before [relations[j][i]]. *)
Theorem get_result_malformed_matrix (ss : SelectionSet.t) (a b : string)
    (i j : nat) :
  first_position (SelectionSet.selections ss) a i ->
  first_position (SelectionSet.selections ss) b j ->
  (entry (SelectionSet.relations ss) i j = None ->
     SelectionSet.get_result ss a b = Raise IndexError) /\
  (forall v, entry (SelectionSet.relations ss) i j = Some v ->
     v <> 1%Z -> v <> 0%Z -> v <> (-1)%Z ->
     SelectionSet.get_result ss a b = Raise ValueError) /\
  (forall v r1, entry (SelectionSet.relations ss) i j = Some v ->
     encodes v r1 ->
     entry (SelectionSet.relations ss) j i = None ->
     SelectionSet.get_result ss a b = Raise IndexError) /\
  (forall v r1 v', entry (SelectionSet.relations ss) i j = Some v ->
     encodes v r1 ->
     entry (SelectionSet.relations ss) j i = Some v' ->
     v' <> 1%Z -> v' <> 0%Z -> v' <> (-1)%Z ->
     SelectionSet.get_result ss a b = Raise ValueError).
Proof.
  intros Pa Pb. apply index_first_position in Pa, Pb.
  rewrite (get_result_members ss a b i j Pa Pb).
  assert (Bad : forall v, v <> 1%Z -> v <> 0%Z -> v <> (-1)%Z ->
                          ResultEnum.of_value v = Raise ValueError).
  { intros v H1 H0 Hm. unfold ResultEnum.of_value.
    destruct (Z.eqb_spec v 1); [contradiction |].
    destruct (Z.eqb_spec v 0); [contradiction |].
    destruct (Z.eqb_spec v (-1)); [contradiction | reflexivity]. }
  unfold entry, getitem.
  split; [| split; [| split]].
  - destruct (SelectionSet.relations ss !! i) as [row1|]; [| reflexivity].
    simpl. intros ->. reflexivity.
  - intros v E H1 H0 Hm.
    destruct (SelectionSet.relations ss !! i) as [row1|]; [| discriminate].
    simpl. rewrite E. simpl. rewrite (Bad v H1 H0 Hm). reflexivity.
  - intros v r1 E V E'. apply of_value_encodes in V.
    destruct (SelectionSet.relations ss !! i) as [row1|]; [| discriminate].
    simpl. rewrite E. simpl. rewrite V. simpl.
    destruct (SelectionSet.relations ss !! j) as [row2|]; [| reflexivity].
    simpl. rewrite E'. reflexivity.
  - intros v r1 v' E V E' H1 H0 Hm. apply of_value_encodes in V.
    destruct (SelectionSet.relations ss !! i) as [row1|]; [| discriminate].
    simpl. rewrite E. simpl. rewrite V. simpl.
    destruct (SelectionSet.relations ss !! j) as [row2|]; [| discriminate].
    simpl. rewrite E'. simpl. rewrite (Bad v' H1 H0 Hm). reflexivity.
Qed.

Lemma get_result_malformed_matrix_witness :
  SelectionSet.get_result malformed "b" "a" = Raise IndexError /\
  SelectionSet.get_result malformed "a" "b" = Raise ValueError /\
  SelectionSet.get_result malformed "a" "a" = Ok (TIE, TIE).
Proof.
  split; [| split; [| reflexivity]].
  - apply (get_result_malformed_matrix malformed "b" "a" 1 0).
    + split; [reflexivity |].
      intros [|k] y Hk; simpl; try lia; intros [= <-]; discriminate.
    + split; [reflexivity | intros k y Hk; lia].
    + reflexivity.
  - destruct (get_result_malformed_matrix malformed "a" "b" 0 1)
      as (_ & Hbad & _).
    + split; [reflexivity | intros k y Hk; lia].
    + split; [reflexivity |].
      intros [|k] y Hk; simpl; try lia; intros [= <-]; discriminate.
    + apply (Hbad 2%Z); [reflexivity | lia | lia | lia].
Defined.

(** ** HumanPlayer and ComputerPlayer, continued *)

Section AskMove.

Variable question_str : string.
Variable selections : list string.

Lemma parse_move_member (answer : string) :
  answer ∈ selections -> HumanPlayer.parse_move answer selections = Some answer.
Proof.
  intros H. apply contains_elem_of in H.
  unfold HumanPlayer.parse_move. rewrite H. reflexivity.
Qed.

Lemma parse_move_stranger (answer : string) :
  answer ∉ selections -> HumanPlayer.parse_move answer selections = None.
Proof.
  intros H. apply contains_false in H.
  unfold HumanPlayer.parse_move. rewrite H. reflexivity.
Qed.

Lemma ask_loop_first_valid (skipped : list string) (move : string)
    (rest out : list string) :
  Forall (fun line => line ∉ selections) skipped ->
  move ∈ selections ->
  HumanPlayer.ask_loop question_str selections (skipped ++ move :: rest) out
  = Ok (move, (rest, out ++ replicate (S (length skipped)) question_str)).
Proof.
  intros Hskip Hmove. revert out.
  induction Hskip as [|line skipped Hline _ IH]; intros out; simpl.
  - rewrite (parse_move_member move Hmove). reflexivity.
  - rewrite (parse_move_stranger line Hline), IH, <- app_assoc. reflexivity.
Qed.

Lemma ask_loop_no_valid (lines out : list string) :
  Forall (fun line => line ∉ selections) lines ->
  HumanPlayer.ask_loop question_str selections lines out = Raise EOFError.
Proof.
  intros H. revert out.
  induction H as [|line lines Hline _ IH]; intros out; simpl.
  - reflexivity.
  - rewrite (parse_move_stranger line Hline). apply IH.
Qed.

(** Either some line is a selection, and then there is a first one, or
    none is. *)
Lemma first_valid_line (lines : list string) :
  (exists skipped move rest,
      lines = skipped ++ move :: rest /\
      Forall (fun line => line ∉ selections) skipped /\
      move ∈ selections) \/
  Forall (fun line => line ∉ selections) lines.
Proof.
  induction lines as [|line lines IH].
  - right. constructor.
  - destruct (contains line selections) eqn:C.
    + left. exists [], line, lines. apply contains_elem_of in C.
      split; [reflexivity |]. split; [constructor | exact C].
    + apply contains_false in C.
      destruct IH as [(skipped & move & rest & -> & Hskip & Hmove)|Hnone].
      * left. exists (line :: skipped), move, rest.
        split; [reflexivity |]. split; [constructor; assumption | exact Hmove].
      * right. constructor; assumption.
Qed.

Lemma ask_loop_returns_inv (lines out : list string) (move : string)
    (rest out' : list string) :
  HumanPlayer.ask_loop question_str selections lines out
    = Ok (move, (rest, out')) ->
  move ∈ selections /\ length rest < length lines.
Proof.
  revert out. induction lines as [|line lines IH]; intros out; simpl.
  - discriminate.
  - unfold HumanPlayer.parse_move.
    destruct (contains line selections) eqn:C.
    + intros [= <- <- _]. apply contains_elem_of in C. split; [exact C | lia].
    + intros H. destruct (IH _ H) as [Hm Hl]. split; [exact Hm | lia].
Qed.

Lemma ask_loop_raises_inv (lines out : list string) (e : exn) :
  HumanPlayer.ask_loop question_str selections lines out = Raise e ->
  e = EOFError.
Proof.
  revert out. induction lines as [|line lines IH]; intros out; simpl.
  - intros [= <-]. reflexivity.
  - destruct (HumanPlayer.parse_move line selections); [discriminate | apply IH].
Qed.

End AskMove.

(** X5: [ask_move] returns the first line of the input that is, exactly
    as typed, one of the game's selections; it consumes the lines up to
    and including that one, writes the prompt once per line it reads, and
    leaves the random generator alone. *)
Theorem ask_move_first_valid_line (game : Game.t) (w : World)
    (skipped : list string) (move : string) (rest : list string) :
  stdin w = skipped ++ move :: rest ->
  Forall (fun line => line ∉ SelectionSet.selections (Game.selection_set game))
         skipped ->
  move ∈ SelectionSet.selections (Game.selection_set game) ->
  HumanPlayer.ask_move game w
  = Ok (move,
        mkWorld rest
          (stdout w ++ replicate (S (length skipped)) (prompt game))
          (rand w) (rand_pos w)).
Proof.
  intros Hin Hskip Hmove. unfold HumanPlayer.ask_move. rewrite Hin.
  rewrite (ask_loop_first_valid _ _ skipped move rest (stdout w) Hskip Hmove).
  reflexivity.
Qed.

Lemma ask_move_first_valid_line_witness :
  HumanPlayer.ask_move RockPaperScissors.g
    (mkWorld ["Rock"; "lizard"; "paper"; "rock"] [] (fun n => n) 0)
  = Ok ("paper",
        mkWorld ["rock"]
          ([] ++ replicate 3 (prompt RockPaperScissors.g)) (fun n => n) 0).
Proof.
  apply (ask_move_first_valid_line RockPaperScissors.g
           (mkWorld ["Rock"; "lizard"; "paper"; "rock"] [] (fun n => n) 0)
           ["Rock"; "lizard"] "paper" ["rock"]).
  - reflexivity.
  - repeat (constructor; [apply contains_false; reflexivity |]). constructor.
  - apply contains_elem_of. reflexivity.
Defined.

(** X6: [ask_move] has two ways to end.  When no line left on the input
    is a selection it raises [EOFError], after the input has run out;
    otherwise it returns a member of the selections, having consumed at
    least one line and no random draw.  It raises nothing else. *)
Theorem ask_move_ends (game : Game.t) (w : World) :
  (Forall (fun line => line ∉ SelectionSet.selections (Game.selection_set game))
          (stdin w) /\
   HumanPlayer.ask_move game w = Raise EOFError) \/
  (exists move w',
      HumanPlayer.ask_move game w = Ok (move, w') /\
      move ∈ SelectionSet.selections (Game.selection_set game) /\
      length (stdin w') < length (stdin w) /\
      rand w' = rand w /\ rand_pos w' = rand_pos w).
Proof.
  destruct (first_valid_line (SelectionSet.selections (Game.selection_set game))
              (stdin w))
    as [(skipped & move & rest & Hin & Hskip & Hmove)|Hnone].
  - right. eexists. eexists.
    split.
    { unfold HumanPlayer.ask_move. rewrite Hin.
      rewrite (ask_loop_first_valid _ _ skipped move rest (stdout w) Hskip Hmove).
      reflexivity. }
    split; [exact Hmove |]. simpl. rewrite Hin, length_app. simpl.
    split; [lia | split; reflexivity].
  - left. split; [exact Hnone |].
    unfold HumanPlayer.ask_move. rewrite (ask_loop_no_valid _ _ _ _ Hnone).
    reflexivity.
Qed.


Section PlayerMoves.

Import GameHandler.

(** A string a player plays is a selection of the game; a human player
    uses up input, and what is written in between is the prompt. *)
Lemma player_play_member (p : Player.t) (game : Game.t) (w w' : World)
    (move : string) :
  Player_play p game w = Ok (Some move, w') ->
  move ∈ SelectionSet.selections (Game.selection_set game) /\
  Player.cls p <> Player.Base /\
  length (stdin w') <= length (stdin w) /\
  (Player.cls p = Player.Human -> length (stdin w') < length (stdin w)).
Proof.
  unfold Player_play. destruct (Player.cls p).
  - discriminate.
  - unfold HumanPlayer.play, HumanPlayer.ask_move.
    destruct (HumanPlayer.ask_loop _ _ (stdin w) (stdout w))
      as [[m [rest out']]|] eqn:E; simpl; [| discriminate].
    intros [= <- <-]. destruct (ask_loop_returns_inv _ _ _ _ _ _ _ E) as [Hm Hl].
    simpl. split; [exact Hm |]. split; [discriminate |].
    split; [lia | intros _; exact Hl].
  - unfold ComputerPlayer.play, ComputerPlayer.play_uniformly_random.
    destruct (SelectionSet.selections (Game.selection_set game)) as [|y ys] eqn:S;
      [discriminate |].
    destruct (random_choice_member (y :: ys) w) as (m & E & Hm); [discriminate |].
    rewrite E. simpl. intros [= <- <-].
    split; [exact Hm |]. split; [discriminate |].
    split; [simpl; lia | discriminate].
Qed.

(** Only an instance of the base class plays [None], and it touches
    nothing. *)
Lemma player_play_none (p : Player.t) (game : Game.t) (w w' : World) :
  Player_play p game w = Ok (None, w') ->
  Player.cls p = Player.Base /\ w' = w.
Proof.
  unfold Player_play. destruct (Player.cls p).
  - unfold Player.play. intros [= <-]. split; reflexivity.
  - destruct (HumanPlayer.play game w) as [[m w1]|]; discriminate.
  - destruct (ComputerPlayer.play game w) as [[m w1]|]; discriminate.
Qed.


(** A player fails to move in one of two ways. *)
Lemma player_play_raises (p : Player.t) (game : Game.t) (w : World) (e : exn) :
  Player_play p game w = Raise e ->
  (e = EOFError /\ Player.cls p = Player.Human) \/
  (e = IndexError /\ Player.cls p = Player.Computer /\
   SelectionSet.selections (Game.selection_set game) = []).
Proof.
  unfold Player_play. destruct (Player.cls p).
  - discriminate.
  - unfold HumanPlayer.play, HumanPlayer.ask_move.
    destruct (HumanPlayer.ask_loop _ _ (stdin w) (stdout w))
      as [[m [rest out']]|e'] eqn:E; simpl; [discriminate |].
    intros [= <-]. left. split; [| reflexivity].
    eapply ask_loop_raises_inv. exact E.
  - unfold ComputerPlayer.play, ComputerPlayer.play_uniformly_random.
    destruct (SelectionSet.selections (Game.selection_set game)) as [|y ys] eqn:S.
    + intros [= <-]. right. repeat split; reflexivity.
    + destruct (random_choice_member (y :: ys) w) as (m & E & Hm); [discriminate |].
      rewrite E. discriminate.
Qed.

Lemma play_turn_raises_first (s : State) (e : exn) :
  Player_play (store s (player1 (self s))) (game (self s)) (world s) = Raise e ->
  play_turn s = Raise e.
Proof.
  intros P1.
  cbv [play_turn bindM gets io lift update_player add_turn_to_history
       get_result_str ret]. simpl.
  rewrite P1. reflexivity.
Qed.

Lemma play_turn_raises_second (s : State) (m1 : option string) (w1 : World)
    (e : exn) :
  Player_play (store s (player1 (self s))) (game (self s)) (world s)
    = Ok (m1, w1) ->
  Player_play (store s (player2 (self s))) (game (self s)) w1 = Raise e ->
  play_turn s = Raise e.
Proof.
  intros P1 P2.
  cbv [play_turn bindM gets io lift update_player add_turn_to_history
       get_result_str ret]. simpl.
  rewrite P1. simpl. rewrite P2. reflexivity.
Qed.

Lemma play_turn_raises_result (s : State) (m1 m2 : option string)
    (w1 w2 : World) (e : exn) :
  Player_play (store s (player1 (self s))) (game (self s)) (world s)
    = Ok (m1, w1) ->
  Player_play (store s (player2 (self s))) (game (self s)) w1 = Ok (m2, w2) ->
  SelectionSet.get_result_of_moves (Game.selection_set (game (self s))) m1 m2
    = Raise e ->
  play_turn s = Raise e.
Proof.
  intros P1 P2 G.
  cbv [play_turn bindM gets io lift update_player add_turn_to_history
       get_result_str ret]. simpl.
  rewrite P1. simpl. rewrite P2. simpl. rewrite G. reflexivity.
Qed.

(** With two members, [get_result] returns or fails on the matrix. *)
Lemma get_result_members_outcome (ss : SelectionSet.t) (a b : string) :
  a ∈ SelectionSet.selections ss ->
  b ∈ SelectionSet.selections ss ->
  returns (SelectionSet.get_result ss a b) \/
  SelectionSet.get_result ss a b = Raise IndexError \/
  SelectionSet.get_result ss a b = Raise ValueError.
Proof.
  intros Ha Hb.
  destruct (index_of_member _ _ Ha) as (i & Hi & _).
  destruct (index_of_member _ _ Hb) as (j & Hj & _).
  rewrite (get_result_members ss a b i j Hi Hj).
  unfold getitem, ResultEnum.of_value, returns.
  repeat (match goal with
          | |- context [match ?x !! ?k with _ => _ end] => destruct (x !! k)
          | |- context [if ?c then _ else _] => destruct c
          end; simpl); eauto.
Qed.

End PlayerMoves.

(** ** GameHandler.play_turn, continued *)

Section TurnOutcomes.

Import GameHandler.

(** Every way a turn can end. *)
Lemma play_turn_cases (s : State) :
  let ss := Game.selection_set (game (self s)) in
  (exists s', play_turn s = Ok (tt, s') /\
              Player.cls (store s (player1 (self s))) <> Player.Base /\
              Player.cls (store s (player2 (self s))) <> Player.Base) \/
  (play_turn s = Raise EOFError /\
   (Player.cls (store s (player1 (self s))) = Player.Human \/
    Player.cls (store s (player2 (self s))) = Player.Human)) \/
  (play_turn s = Raise IndexError /\ SelectionSet.selections ss = []) \/
  (exists m1 m2 e,
      m1 ∈ SelectionSet.selections ss /\ m2 ∈ SelectionSet.selections ss /\
      SelectionSet.get_result ss m1 m2 = Raise e /\
      (e = IndexError \/ e = ValueError) /\
      play_turn s = Raise e) \/
  (play_turn s = Raise none_rejected /\
   (Player.cls (store s (player1 (self s))) = Player.Base \/
    Player.cls (store s (player2 (self s))) = Player.Base)).
Proof.
  intros ss.
  destruct (Player_play (store s (player1 (self s))) (game (self s)) (world s))
    as [[mv1 w1]|e1] eqn:P1.
  2:{ rewrite (play_turn_raises_first s e1 P1).
      destruct (player_play_raises _ _ _ _ P1) as [[-> H]|(-> & _ & H)].
      - right; left. split; [reflexivity | left; exact H].
      - right; right; left. split; [reflexivity | exact H]. }
  destruct (Player_play (store s (player2 (self s))) (game (self s)) w1)
    as [[mv2 w2]|e2] eqn:P2.
  2:{ rewrite (play_turn_raises_second s mv1 w1 e2 P1 P2).
      destruct (player_play_raises _ _ _ _ P2) as [[-> H]|(-> & _ & H)].
      - right; left. split; [reflexivity | right; exact H].
      - right; right; left. split; [reflexivity | exact H]. }
  destruct mv1 as [m1|].
  2:{ right; right; right; right.
      destruct (player_play_none _ _ _ _ P1) as [B _].
      split; [| left; exact B].
      exact (play_turn_raises_result s None mv2 w1 w2 _ P1 P2 eq_refl). }
  destruct (player_play_member _ _ _ _ _ P1) as (M1 & B1 & _).
  destruct mv2 as [m2|].
  2:{ right; right; right; right.
      destruct (player_play_none _ _ _ _ P2) as [B _].
      split; [| right; exact B].
      apply (play_turn_raises_result s (Some m1) None w1 w2 _ P1 P2).
      unfold SelectionSet.get_result_of_moves.
      rewrite (proj2 (contains_elem_of _ _) M1). reflexivity. }
  destruct (player_play_member _ _ _ _ _ P2) as (M2 & B2 & _).
  destruct (get_result_members_outcome ss m1 m2 M1 M2) as [[[r1 r2] G]|[G|G]].
  - left. destruct (play_turn_runs s m1 m2 w1 w2 r1 r2 P1 P2 G) as (l1 & l2 & E).
    eexists. split; [exact E |]. split; assumption.
  - right; right; right; left. exists m1, m2, IndexError.
    repeat split; try assumption; [left; reflexivity |].
    apply (play_turn_raises_result s (Some m1) (Some m2) w1 w2 _ P1 P2).
    unfold SelectionSet.get_result_of_moves. fold ss. rewrite G. reflexivity.
  - right; right; right; left. exists m1, m2, ValueError.
    repeat split; try assumption; [right; reflexivity |].
    apply (play_turn_raises_result s (Some m1) (Some m2) w1 w2 _ P1 P2).
    unfold SelectionSet.get_result_of_moves. fold ss. rewrite G. reflexivity.
Qed.

End TurnOutcomes.

Lemma script_selection_set_well_shaped : well_shaped RockPaperScissors.s.
Proof.
  split; [reflexivity |]. simpl.
  repeat (constructor;
          [split; [reflexivity | repeat (constructor; [lia |]); constructor] |]).
  constructor.
Qed.

(** [GameHandler(g, Player("plain"), ComputerPlayer("random"))]: the
    first player's [play] returns [None] and the turn stops at the first
    assertion of [get_result], after the computer player has drawn. *)
Example base_player_turn (w : World) :
  GameHandler.play_turn
    (GameHandler.mkState (GameHandler.init RockPaperScissors.g 0 1)
       (fun r => match r with
                 | 0 => Player.init Player.Base "plain"
                 | _ => RockPaperScissors.computer
                 end) w)
  = Raise none_rejected.
Proof.
  destruct (play_turn_cases
              (GameHandler.mkState (GameHandler.init RockPaperScissors.g 0 1)
                 (fun r => match r with
                           | 0 => Player.init Player.Base "plain"
                           | _ => RockPaperScissors.computer
                           end) w))
    as [(s' & _ & B & _)|[[_ [H|H]]|[[_ H]|[(m1 & m2 & e & M1 & M2 & G & _)|[H _]]]]].
  - contradiction B. reflexivity.
  - discriminate H.
  - discriminate H.
  - discriminate H.
  - destruct (get_result_well_shaped _ m1 m2 script_selection_set_well_shaped
                M1 M2) as [r G'].
    simpl in G. rewrite G in G'. discriminate.
  - exact H.
Qed.

(** X8: a turn either completes or raises [EOFError], [IndexError],
    [ValueError] or the [AssertionError] of [get_result] on [None].  The
    assertion fails exactly through an instance of the base class
    [Player], whose [play] returns [None], and such a player never
    completes a turn; the moves of human and computer players are always
    selections of the game.  On a selection set of the prescribed shape
    the turn completes unless a human player runs out of input
    ([EOFError]), there is no selection to draw from ([IndexError]) or a
    player is of the base class ([AssertionError]). *)
Theorem play_turn_outcomes (s : GameHandler.State) :
  let p1 := GameHandler.store s (GameHandler.player1 (GameHandler.self s)) in
  let p2 := GameHandler.store s (GameHandler.player2 (GameHandler.self s)) in
  ((exists s', GameHandler.play_turn s = Ok (tt, s')) \/
   GameHandler.play_turn s = Raise EOFError \/
   GameHandler.play_turn s = Raise IndexError \/
   GameHandler.play_turn s = Raise ValueError \/
   GameHandler.play_turn s = Raise none_rejected) /\
  (is_assertion_error (GameHandler.play_turn s) <->
     GameHandler.play_turn s = Raise none_rejected) /\
  (is_assertion_error (GameHandler.play_turn s) ->
     Player.cls p1 = Player.Base \/ Player.cls p2 = Player.Base) /\
  (returns (GameHandler.play_turn s) ->
     Player.cls p1 <> Player.Base /\ Player.cls p2 <> Player.Base) /\
  (well_shaped (Game.selection_set (GameHandler.game (GameHandler.self s))) ->
   (exists s', GameHandler.play_turn s = Ok (tt, s')) \/
   (GameHandler.play_turn s = Raise EOFError /\
    (Player.cls p1 = Player.Human \/ Player.cls p2 = Player.Human)) \/
   (GameHandler.play_turn s = Raise IndexError /\
    SelectionSet.selections
      (Game.selection_set (GameHandler.game (GameHandler.self s))) = []) \/
   (GameHandler.play_turn s = Raise none_rejected /\
    (Player.cls p1 = Player.Base \/ Player.cls p2 = Player.Base))).
Proof.
  intros p1 p2. pose proof (play_turn_cases s) as C. simpl in C. fold p1 p2 in C.
  assert (A : is_assertion_error (GameHandler.play_turn s) ->
              GameHandler.play_turn s = Raise none_rejected /\
              (Player.cls p1 = Player.Base \/ Player.cls p2 = Player.Base)).
  { intros [msg H].
    destruct C as [(s' & C & _)|[[C _]|[[C _]|[(m1 & m2 & e & _ & _ & _ & He & C)|C]]]];
      try (rewrite C in H; discriminate); [| exact C].
    rewrite C in H. destruct He as [-> | ->]; discriminate. }
  split; [| split; [| split; [| split]]].
  - destruct C as [(s' & C & _)|[[C _]|[[C _]|[(m1 & m2 & e & _ & _ & _ & [->| ->] & C)|[C _]]]]];
      eauto 6.
  - split; [intros H; exact (proj1 (A H)) | intros H; eexists; exact H].
  - intros H. exact (proj2 (A H)).
  - intros [[u s'] H].
    destruct C as [(s1 & _ & B1 & B2)|[[C _]|[[C _]|[(m1 & m2 & e & _ & _ & _ & _ & C)|[C _]]]]];
      try (rewrite C in H; discriminate).
    split; assumption.
  - intros Hshape.
    destruct C as [(s' & C & _)|[C|[C|[(m1 & m2 & e & M1 & M2 & G & _ & _)|C]]]];
      eauto 6.
    destruct (get_result_well_shaped _ m1 m2 Hshape M1 M2) as [r G'].
    rewrite G in G'. discriminate.
Qed.

Lemma play_turn_outcomes_witness :
  (exists s',
      GameHandler.play_turn
        (RockPaperScissors.start (mkWorld [] [] (fun n => n) 0)) = Ok (tt, s')) \/
  (GameHandler.play_turn
     (RockPaperScissors.start (mkWorld [] [] (fun n => n) 0)) = Raise EOFError /\
   (Player.cls (RockPaperScissors.objects 0) = Player.Human \/
    Player.cls (RockPaperScissors.objects 1) = Player.Human)) \/
  (GameHandler.play_turn
     (RockPaperScissors.start (mkWorld [] [] (fun n => n) 0)) = Raise IndexError /\
   SelectionSet.selections RockPaperScissors.s = []) \/
  (GameHandler.play_turn
     (RockPaperScissors.start (mkWorld [] [] (fun n => n) 0)) = Raise none_rejected /\
   (Player.cls (RockPaperScissors.objects 0) = Player.Base \/
    Player.cls (RockPaperScissors.objects 1) = Player.Base)).
Proof.
  apply (proj2 (proj2 (proj2 (proj2
           (play_turn_outcomes
              (RockPaperScissors.start (mkWorld [] [] (fun n => n) 0))))))).
  split; [reflexivity |]. simpl.
  repeat (constructor;
          [split; [reflexivity | repeat (constructor; [lia |]); constructor] |]).
  constructor.
Defined.

Section TurnRecords.

Import GameHandler.

(** What a completed turn has done to the handler and to the objects
    behind its two references. *)
Lemma play_turn_effect (s s' : State) (u : unit) :
  play_turn s = Ok (u, s') ->
  exists t,
    resolved_by (Game.selection_set (game (self s))) t /\
    self s' = mk (game (self s)) (player1 (self s)) (player2 (self s))
                 (history (self s) ++ [t]) /\
    (forall q,
        store s' q =
          if Nat.eqb q (player2 (self s))
          then Player.observe
                 (if Nat.eqb q (player1 (self s))
                  then Player.observe (store s q) (player1_move t)
                         (player2_move t) (player1_result t) (player2_result t)
                  else store s q)
                 (player2_move t) (player1_move t)
                 (player2_result t) (player1_result t)
          else if Nat.eqb q (player1 (self s))
               then Player.observe (store s q) (player1_move t)
                      (player2_move t) (player1_result t) (player2_result t)
               else store s q).
Proof.
  intros H.
  destruct (play_turn_completes s s' u H)
    as (m1 & w1 & m2 & w2 & r1 & r2 & l1 & l2 & _ & _ & G & ->).
  exists (mkTurn m1 m2 r1 r2). split; [exact G |]. split; reflexivity.
Qed.

End TurnRecords.

(** X9: a completed turn appends one record to the handler's history,
    the resolution of the two moves by the selection set.  Two distinct
    player objects each receive one record, seen from their own side;
    when both references designate the same object, that object receives
    both records, the first player's view first.  No other object is
    touched, and the handler keeps its game and its two references. *)
Theorem play_turn_records (s s' : GameHandler.State) (u : unit) :
  GameHandler.play_turn s = Ok (u, s') ->
  let h := GameHandler.self s in
  let p1 := GameHandler.player1 h in
  let p2 := GameHandler.player2 h in
  exists t,
    resolved_by (Game.selection_set (GameHandler.game h)) t /\
    GameHandler.history (GameHandler.self s') = GameHandler.history h ++ [t] /\
    GameHandler.game (GameHandler.self s') = GameHandler.game h /\
    GameHandler.player1 (GameHandler.self s') = p1 /\
    GameHandler.player2 (GameHandler.self s') = p2 /\
    (p1 <> p2 ->
       Player.history (GameHandler.store s' p1)
         = Player.history (GameHandler.store s p1) ++ [player1_view t] /\
       Player.history (GameHandler.store s' p2)
         = Player.history (GameHandler.store s p2) ++ [player2_view t]) /\
    (p1 = p2 ->
       Player.history (GameHandler.store s' p1)
         = Player.history (GameHandler.store s p1)
             ++ [player1_view t; player2_view t]) /\
    (forall q, q <> p1 -> q <> p2 ->
               GameHandler.store s' q = GameHandler.store s q).
Proof.
  intros H h p1 p2.
  destruct (play_turn_effect s s' u H) as (t & G & Hself & Hstore).
  exists t. split; [exact G |]. rewrite Hself. simpl.
  repeat (split; [reflexivity |]).
  split; [| split].
  - intros Hne. rewrite !Hstore. fold h p1 p2.
    rewrite !Nat.eqb_refl.
    destruct (Nat.eqb_spec p1 p2) as [|_]; [contradiction |].
    destruct (Nat.eqb_spec p2 p1) as [E|_]; [symmetry in E; contradiction |].
    split; reflexivity.
  - intros Heq. rewrite Hstore. fold h p1 p2. rewrite <- Heq, Nat.eqb_refl.
    simpl. rewrite <- app_assoc. reflexivity.
  - intros q H1 H2. rewrite Hstore. fold h p1 p2.
    destruct (Nat.eqb_spec q p2); [contradiction |].
    destruct (Nat.eqb_spec q p1); [contradiction | reflexivity].
Qed.

Lemma play_turn_records_witness :
  exists s' t,
    GameHandler.play_turn
      (RockPaperScissors.start (mkWorld ["rock"] [] (fun n => n + 2) 0))
    = Ok (tt, s') /\
    t = GameHandler.mkTurn "rock" "scissors" WIN LOSE /\
    GameHandler.history (GameHandler.self s') = [t] /\
    Player.history (GameHandler.store s' 0) = [player1_view t] /\
    Player.history (GameHandler.store s' 1) = [player2_view t].
Proof.
  destruct (GameHandler.play_turn
              (RockPaperScissors.start (mkWorld ["rock"] [] (fun n => n + 2) 0)))
    as [[[] s']|e] eqn:E.
  - destruct (play_turn_records _ s' tt E) as (t & G & Hh & _ & _ & _ & Hd & _ & _).
    simpl in Hh, Hd. destruct (Hd ltac:(discriminate)) as [H1 H2].
    exists s', t. split; [reflexivity |].
    assert (Ht : t = GameHandler.mkTurn "rock" "scissors" WIN LOSE).
    { vm_compute in E. injection E as <-. simpl in Hh. injection Hh as <-.
      reflexivity. }
    split; [exact Ht |]. split; [exact Hh |]. split; [exact H1 | exact H2].
  - vm_compute in E. discriminate E.
Defined.

Section MatchRecords.

Import GameHandler.

(** The records of [n] completed turns in a row, for two distinct player
    objects. *)
Lemma turns_records (n : nat) (s s' : State) :
  turns n s = Ok s' ->
  player1 (self s) <> player2 (self s) ->
  exists new,
    length new = n /\
    self s' = mk (game (self s)) (player1 (self s)) (player2 (self s))
                 (history (self s) ++ new) /\
    Forall (resolved_by (Game.selection_set (game (self s)))) new /\
    Player.history (store s' (player1 (self s)))
      = Player.history (store s (player1 (self s))) ++ map player1_view new /\
    Player.history (store s' (player2 (self s)))
      = Player.history (store s (player2 (self s))) ++ map player2_view new.
Proof.
  revert s. induction n as [|n IH]; intros s Hturns Hne; simpl in Hturns.
  - injection Hturns as <-. exists []. rewrite !app_nil_r.
    split; [reflexivity |]. split; [destruct (self s); reflexivity |].
    split; [constructor | split; reflexivity].
  - destruct (play_turn s) as [[u s1]|] eqn:E; simpl in Hturns; [| discriminate].
    destruct (play_turn_effect s s1 u E) as (t & G & Hself & Hstore).
    assert (E1 : player1 (self s1) = player1 (self s)) by (rewrite Hself; reflexivity).
    assert (E2 : player2 (self s1) = player2 (self s)) by (rewrite Hself; reflexivity).
    assert (Eg : game (self s1) = game (self s)) by (rewrite Hself; reflexivity).
    destruct (IH s1 Hturns) as (new & Hlen & Hself' & Hres & H1 & H2);
      [rewrite E1, E2; exact Hne |].
    rewrite E1 in H1. rewrite E2 in H2. rewrite Eg in Hres.
    rewrite Hself' , E1, E2, Eg. rewrite Hself. simpl.
    exists (t :: new). split; [simpl; lia |].
    split; [rewrite <- app_assoc; reflexivity |].
    split; [constructor; assumption |].
    rewrite H1, H2, !Hstore, !Nat.eqb_refl.
    destruct (Nat.eqb_spec (player1 (self s)) (player2 (self s)));
      [contradiction |].
    destruct (Nat.eqb_spec (player2 (self s)) (player1 (self s))) as [Es|_];
      [symmetry in Es; contradiction |].
    simpl. rewrite <- !app_assoc. split; reflexivity.
Qed.

End MatchRecords.

(** X10: over any number of completed turns between two distinct player
    objects, the three histories stay in step: the handler gains one
    record per turn, each the resolution of its two moves by the
    selection set, and each player gains the same records in the same
    order, seen from its own side. *)
Theorem histories_in_step (n : nat) (s s' : GameHandler.State) :
  GameHandler.turns n s = Ok s' ->
  GameHandler.player1 (GameHandler.self s)
    <> GameHandler.player2 (GameHandler.self s) ->
  exists new,
    length new = n /\
    GameHandler.history (GameHandler.self s')
      = GameHandler.history (GameHandler.self s) ++ new /\
    Forall (resolved_by
              (Game.selection_set (GameHandler.game (GameHandler.self s)))) new /\
    Player.history
      (GameHandler.store s' (GameHandler.player1 (GameHandler.self s)))
      = Player.history
          (GameHandler.store s (GameHandler.player1 (GameHandler.self s)))
          ++ map player1_view new /\
    Player.history
      (GameHandler.store s' (GameHandler.player2 (GameHandler.self s)))
      = Player.history
          (GameHandler.store s (GameHandler.player2 (GameHandler.self s)))
          ++ map player2_view new.
Proof.
  intros Hturns Hne.
  destruct (turns_records n s s' Hturns Hne)
    as (new & Hlen & Hself & Hres & H1 & H2).
  exists new. rewrite Hself. simpl.
  split; [exact Hlen |]. split; [reflexivity |].
  split; [exact Hres |]. split; [exact H1 | exact H2].
Qed.

Lemma histories_in_step_witness :
  exists s' new,
    GameHandler.turns 2
      (RockPaperScissors.start
         (mkWorld ["rock"; "lizard"; "paper"] [] (fun n => n + 2) 0)) = Ok s' /\
    length new = 2 /\
    GameHandler.history (GameHandler.self s') = [] ++ new /\
    Player.history (GameHandler.store s' 0) = [] ++ map player1_view new /\
    Player.history (GameHandler.store s' 1) = [] ++ map player2_view new.
Proof.
  destruct (GameHandler.turns 2
              (RockPaperScissors.start
                 (mkWorld ["rock"; "lizard"; "paper"] [] (fun n => n + 2) 0)))
    as [s'|e] eqn:E.
  - destruct (histories_in_step 2 _ s' E) as (new & Hlen & Hh & _ & H1 & H2).
    + discriminate.
    + exists s', new. split; [reflexivity |]. split; [exact Hlen |].
      split; [exact Hh |]. split; [exact H1 | exact H2].
  - vm_compute in E. discriminate E.
Defined.

(** ** GameHandler.get_current_result, continued *)

Section Counts.

Import GameHandler.

Lemma count_result_cons (side : turn -> Result) (r : Result) (t : turn)
    (hist : list turn) :
  count_result side r (t :: hist)
  = (if decide (side t = r) then 1 else 0) + count_result side r hist.
Proof.
  unfold count_result. rewrite filter_cons.
  destruct (decide (side t = r)); reflexivity.
Qed.

Lemma increment_counts m (player : string) (d : gmap Result nat)
    (f : Result -> nat) (result : Result) :
  m !! player = Some d ->
  (forall r, d !! r = Some (f r)) ->
  exists d',
    increment m player result = Ok (<[player := d']> m) /\
    forall r, d' !! r = Some (f r + if decide (result = r) then 1 else 0).
Proof.
  intros Hm Hd. unfold increment, dict_get. rewrite Hm. simpl.
  rewrite (Hd result). simpl. eexists. split; [reflexivity |].
  intros r. destruct (decide (result = r)) as [->|Hne].
  - rewrite lookup_insert_eq. reflexivity.
  - rewrite lookup_insert_ne by exact Hne. rewrite (Hd r). f_equal. lia.
Qed.

(** The loop adds to each count the number of records of the history
    that carry the outcome for that player. *)
Lemma tally_counts (hist : list turn) m (d1 d2 : gmap Result nat)
    (f1 f2 : Result -> nat) :
  m !! "player1" = Some d1 ->
  m !! "player2" = Some d2 ->
  (forall r, d1 !! r = Some (f1 r)) ->
  (forall r, d2 !! r = Some (f2 r)) ->
  exists m' d1' d2',
    tally hist m = Ok m' /\
    m' !! "player1" = Some d1' /\
    m' !! "player2" = Some d2' /\
    (forall r, d1' !! r = Some (f1 r + count_result player1_result r hist)) /\
    (forall r, d2' !! r = Some (f2 r + count_result player2_result r hist)).
Proof.
  revert m d1 d2 f1 f2.
  induction hist as [|t rest IH]; intros m d1 d2 f1 f2 H1 H2 F1 F2; simpl.
  - exists m, d1, d2. split; [reflexivity |]. split; [exact H1 |].
    split; [exact H2 |].
    split; intros r; unfold count_result; simpl; rewrite Nat.add_0_r; auto.
  - destruct (increment_counts m "player1" d1 f1 (player1_result t) H1 F1)
      as (d1' & E1 & F1').
    rewrite E1. simpl.
    destruct (increment_counts (<["player1" := d1']> m) "player2" d2 f2
                (player2_result t)) as (d2' & E2 & F2');
      [rewrite lookup_insert_ne by discriminate; exact H2 | exact F2 |].
    rewrite E2. simpl.
    destruct (IH (<["player2" := d2']> (<["player1" := d1']> m)) d1' d2'
                (fun r => f1 r + if decide (player1_result t = r) then 1 else 0)
                (fun r => f2 r + if decide (player2_result t = r) then 1 else 0))
      as (m' & e1 & e2 & E & L1 & L2 & C1 & C2).
    + rewrite lookup_insert_ne by discriminate. apply lookup_insert_eq.
    + apply lookup_insert_eq.
    + exact F1'.
    + exact F2'.
    + exists m', e1, e2. split; [exact E |]. split; [exact L1 |].
      split; [exact L2 |].
      split; intros r; rewrite count_result_cons; [rewrite C1 | rewrite C2];
        f_equal; lia.
Qed.

Lemma get_current_result_counts (s : State) :
  exists m d1 d2,
    get_current_result s = Ok (m, s) /\
    m !! "player1" = Some d1 /\
    m !! "player2" = Some d2 /\
    (forall r, d1 !! r
               = Some (count_result player1_result r (history (self s)))) /\
    (forall r, d2 !! r
               = Some (count_result player2_result r (history (self s)))).
Proof.
  destruct (tally_counts (history (self s))
              (<["player2" := tmp_dct]> (<["player1" := tmp_dct]> ∅))
              tmp_dct tmp_dct (fun _ => 0) (fun _ => 0))
    as (m & d1 & d2 & E & L1 & L2 & C1 & C2);
    try reflexivity; try apply tmp_dct_lookup.
  exists m, d1, d2. unfold get_current_result, bindM, gets, lift. rewrite E.
  repeat split; assumption.
Qed.

End Counts.

Section TallyLine.

Import GameHandler.

Lemma get_current_result_str_line (s : State) :
  get_current_result_str s
  = Ok (tally_line (store s (player1 (self s))) (store s (player2 (self s)))
          (history (self s)), s).
Proof.
  destruct (get_current_result_counts s) as (m & d1 & d2 & E & L1 & L2 & C1 & C2).
  unfold get_current_result_str, bindM. rewrite E.
  unfold gets, lift, dict_get. rewrite L1, L2. simpl.
  rewrite !C1, !C2. reflexivity.
Qed.


End TallyLine.

(** X11: [get_current_result] counts exactly: for each player and each
    outcome, the count it returns is the number of records in the
    handler's history that give that player that outcome; the state is
    left as it was. *)
Theorem get_current_result_exact (s : GameHandler.State) :
  exists m d1 d2,
    GameHandler.get_current_result s = Ok (m, s) /\
    m !! "player1" = Some d1 /\
    m !! "player2" = Some d2 /\
    (forall r,
        d1 !! r
        = Some (count_result GameHandler.player1_result r
                  (GameHandler.history (GameHandler.self s)))) /\
    (forall r,
        d2 !! r
        = Some (count_result GameHandler.player2_result r
                  (GameHandler.history (GameHandler.self s)))).
Proof. exact (get_current_result_counts s). Qed.

(** X12: [get_current_result_str] never fails, changes nothing, and
    returns the line "<player1> (<w>W, <t>T, <l>L) vs <player2> (<w>W,
    <t>T, <l>L)" in which the numbers are each player's counts of wins,
    ties and losses in the handler's history and the players appear with
    their kind tag. *)
Theorem get_current_result_str_format (s : GameHandler.State) :
  GameHandler.get_current_result_str s
  = Ok (tally_line
          (GameHandler.store s (GameHandler.player1 (GameHandler.self s)))
          (GameHandler.store s (GameHandler.player2 (GameHandler.self s)))
          (GameHandler.history (GameHandler.self s)), s).
Proof. exact (get_current_result_str_line s). Qed.



(** ** GameHandler.play, continued *)

Section PlayLoop.

Import GameHandler.

Lemma play_loop_raises (k fuel : nat) (limit : option Z) (i : Z)
    (s s1 : State) (e : exn) :
  turns k s = Ok s1 ->
  play_turn s1 = Raise e ->
  match limit with
  | None => True
  | Some m => (m <= i \/ i + Z.of_nat k < m)%Z
  end ->
  k < fuel ->
  play_loop fuel limit i s = Raised e.
Proof.
  revert fuel i s. induction k as [|k IH]; intros fuel i s Hturns He Hlim Hfuel;
    (destruct fuel as [|fuel]; [lia |]); simpl in *.
  - injection Hturns as <-. rewrite He. reflexivity.
  - destruct (play_turn s) as [[u s0]|]; simpl in Hturns; [| discriminate].
    assert (R : turn_limit_reached (i + 1) limit = false).
    { destruct limit as [m|]; [| reflexivity]. simpl.
      destruct (Z.eqb_spec (i + 1) m); [lia | reflexivity]. }
    rewrite R. apply IH; [exact Hturns | exact He | | lia].
    destruct limit as [m|]; [lia | exact I].
Qed.

Lemma play_loop_unbounded (fuel : nat) (limit : option Z) (i : Z) (s : State) :
  match limit with
  | None => True
  | Some m => (m <= i)%Z
  end ->
  (exists k s1 e, k < fuel /\ turns k s = Ok s1 /\ play_turn s1 = Raise e /\
                  play_loop fuel limit i s = Raised e) \/
  (exists s', turns fuel s = Ok s' /\ play_loop fuel limit i s = Running s').
Proof.
  revert i s. induction fuel as [|fuel IH]; intros i s Hlim; simpl.
  - right. exists s. split; reflexivity.
  - destruct (play_turn s) as [[u s0]|e] eqn:E; simpl.
    + assert (R : turn_limit_reached (i + 1) limit = false).
      { destruct limit as [m|]; [| reflexivity]. simpl.
        destruct (Z.eqb_spec (i + 1) m); [lia | reflexivity]. }
      rewrite R.
      destruct (IH (i + 1)%Z s0) as [(k & s1 & e & Hk & Ht & He & Hp)|(s' & Ht & Hp)].
      * destruct limit as [m|]; [lia | exact I].
      * left. exists (S k), s1, e. split; [lia |].
        split; [simpl; rewrite E; exact Ht |]. split; [exact He | exact Hp].
      * right. exists s'. split; [exact Ht | exact Hp].
    + left. exists 0, s, e. split; [lia |]. split; [reflexivity |].
      split; [exact E | reflexivity].
Qed.

(** One turn of a match whose first player is human and whose second
    player is not of the base class, on a selection set of the
    prescribed shape: the input runs out, or the turn completes and has
    used up input. *)
Lemma human_turn (s : State) :
  well_shaped (Game.selection_set (game (self s))) ->
  Player.cls (store s (player1 (self s))) = Player.Human ->
  Player.cls (store s (player2 (self s))) <> Player.Base ->
  play_turn s = Raise EOFError \/
  exists s',
    play_turn s = Ok (tt, s') /\
    length (stdin (world s')) < length (stdin (world s)) /\
    game (self s') = game (self s) /\
    Player.cls (store s' (player1 (self s'))) = Player.Human /\
    Player.cls (store s' (player2 (self s'))) <> Player.Base.
Proof.
  intros Hshape Hhuman Hsecond.
  destruct (Player_play (store s (player1 (self s))) (game (self s)) (world s))
    as [[mv1 w1]|e1] eqn:P1.
  2:{ left. rewrite (play_turn_raises_first s e1 P1).
      destruct (player_play_raises _ _ _ _ P1) as [[-> _]|(_ & H & _)];
        [reflexivity | congruence]. }
  destruct mv1 as [m1|];
    [| destruct (player_play_none _ _ _ _ P1) as [B _]; congruence].
  destruct (player_play_member _ _ _ _ _ P1) as (M1 & _ & _ & L1).
  specialize (L1 Hhuman).
  destruct (Player_play (store s (player2 (self s))) (game (self s)) w1)
    as [[mv2 w2]|e2] eqn:P2.
  2:{ left. rewrite (play_turn_raises_second s (Some m1) w1 e2 P1 P2).
      destruct (player_play_raises _ _ _ _ P2) as [[-> _]|(_ & _ & H)];
        [reflexivity |].
      rewrite H in M1. inversion M1. }
  destruct mv2 as [m2|];
    [| destruct (player_play_none _ _ _ _ P2) as [B _]; contradiction].
  destruct (player_play_member _ _ _ _ _ P2) as (M2 & _ & L2 & _).
  destruct (get_result_well_shaped _ m1 m2 Hshape M1 M2) as [[r1 r2] G].
  destruct (play_turn_runs s m1 m2 w1 w2 r1 r2 P1 P2 G) as (l1 & l2 & E).
  right. eexists. split; [exact E |]. simpl.
  split; [lia |]. split; [reflexivity |].
  rewrite !Nat.eqb_refl. split.
  - destruct (Nat.eqb (player1 (self s)) (player2 (self s))); simpl; exact Hhuman.
  - destruct (Nat.eqb (player2 (self s)) (player1 (self s))); simpl; exact Hsecond.
Qed.

Lemma human_match_ends (fuel : nat) (limit : option Z) (i : Z) (s : State) :
  well_shaped (Game.selection_set (game (self s))) ->
  Player.cls (store s (player1 (self s))) = Player.Human ->
  Player.cls (store s (player2 (self s))) <> Player.Base ->
  match limit with
  | None => True
  | Some m => (m <= i)%Z
  end ->
  length (stdin (world s)) < fuel ->
  play_loop fuel limit i s = Raised EOFError.
Proof.
  revert i s.
  induction fuel as [|fuel IH]; intros i s Hshape Hhuman Hsecond Hlim Hfuel;
    [lia |]. simpl.
  destruct (human_turn s Hshape Hhuman Hsecond)
    as [E|(s' & E & Hl & Hg & Hh & Hs)];
    rewrite E; [reflexivity |].
  assert (R : turn_limit_reached (i + 1) limit = false).
  { destruct limit as [m|]; [| reflexivity]. simpl.
    destruct (Z.eqb_spec (i + 1) m); [lia | reflexivity]. }
  rewrite R. apply IH.
  - rewrite Hg. exact Hshape.
  - exact Hh.
  - exact Hs.
  - destruct limit as [m|]; [lia | exact I].
  - lia.
Qed.

End PlayLoop.

(** X14: with a limit [n] of at least 1, [play] returns as soon as [n]
    turns have completed: the state it returns in is the one the [n]
    turns produce, and the history has grown by exactly [n] records. *)
Theorem play_stops_at_positive_limit (n fuel : nat)
    (s s' : GameHandler.State) :
  1 <= n -> n <= fuel ->
  GameHandler.turns n s = Ok s' ->
  GameHandler.play fuel (Some (Z.of_nat n)) s = GameHandler.Returned s' /\
  length (GameHandler.history (GameHandler.self s'))
  = length (GameHandler.history (GameHandler.self s)) + n.
Proof.
  intros Hn Hfuel Hturns. split.
  - destruct n as [|k]; [lia |].
    apply (play_loop_reaches_limit k); [lia | exact Hfuel | exact Hturns].
  - apply turns_history. exact Hturns.
Qed.

Lemma play_stops_at_positive_limit_witness :
  exists s',
    GameHandler.play 5 (Some 3%Z)
      (ComputerMatch.start (mkWorld [] [] (fun n => 2 * n) 0))
    = GameHandler.Returned s' /\
    length (GameHandler.history (GameHandler.self s')) = 0 + 3.
Proof.
  destruct (GameHandler.turns 3
              (ComputerMatch.start (mkWorld [] [] (fun n => 2 * n) 0)))
    as [s'|e] eqn:E.
  - exists s'.
    apply (play_stops_at_positive_limit 3 5
             (ComputerMatch.start (mkWorld [] [] (fun n => 2 * n) 0)) s');
      [lia | lia | exact E].
  - vm_compute in E. discriminate E.
Defined.

(** X15: an exception raised by a turn ends [play] with that exception:
    when [k] turns complete and the next one raises, and the limit is not
    met within those [k] turns, [play] raises the same exception. *)
Theorem play_propagates_exception (k fuel : nat) (limit : option Z)
    (s s1 : GameHandler.State) (e : exn) :
  GameHandler.turns k s = Ok s1 ->
  GameHandler.play_turn s1 = Raise e ->
  limit_beyond k limit ->
  k < fuel ->
  GameHandler.play fuel limit s = GameHandler.Raised e.
Proof.
  intros Hturns He Hlim Hfuel.
  apply (play_loop_raises k fuel limit 0 s s1 e Hturns He); [| exact Hfuel].
  destruct limit as [m|]; [| exact I]. simpl in Hlim. lia.
Qed.

Lemma play_propagates_exception_witness :
  GameHandler.play 4 (Some 5%Z)
    (RockPaperScissors.start (mkWorld ["rock"; "paper"] [] (fun n => n) 0))
  = GameHandler.Raised EOFError.
Proof.
  destruct (GameHandler.turns 2
              (RockPaperScissors.start
                 (mkWorld ["rock"; "paper"] [] (fun n => n) 0)))
    as [s1|e] eqn:E.
  - apply (play_propagates_exception 2 4 (Some 5%Z) _ s1 EOFError E).
    + vm_compute in E. injection E as <-. reflexivity.
    + simpl. lia.
    + lia.
  - vm_compute in E. discriminate E.
Defined.

(** X16: without a limit, or with a limit that is not positive, [play]
    never reaches its [break]: however long it is observed, it has either
    raised the exception of the first turn that failed, or it is still
    running and has played one turn per iteration. *)
Theorem play_unbounded_never_returns (fuel : nat) (limit : option Z)
    (s : GameHandler.State) :
  unbounded limit ->
  (exists k s1 e,
      k < fuel /\ GameHandler.turns k s = Ok s1 /\
      GameHandler.play_turn s1 = Raise e /\
      GameHandler.play fuel limit s = GameHandler.Raised e) \/
  (exists s',
      GameHandler.turns fuel s = Ok s' /\
      GameHandler.play fuel limit s = GameHandler.Running s').
Proof.
  intros Hlim. apply play_loop_unbounded.
  destruct limit as [m|]; [exact Hlim | exact I].
Qed.

Lemma play_unbounded_never_returns_witness :
  (exists k s1 e,
      k < 3 /\
      GameHandler.turns k
        (ComputerMatch.start (mkWorld [] [] (fun n => n) 0)) = Ok s1 /\
      GameHandler.play_turn s1 = Raise e /\
      GameHandler.play 3 None
        (ComputerMatch.start (mkWorld [] [] (fun n => n) 0))
      = GameHandler.Raised e) \/
  (exists s',
      GameHandler.turns 3
        (ComputerMatch.start (mkWorld [] [] (fun n => n) 0)) = Ok s' /\
      GameHandler.play 3 None
        (ComputerMatch.start (mkWorld [] [] (fun n => n) 0))
      = GameHandler.Running s').
Proof.
  apply (play_unbounded_never_returns 3 None). exact I.
Defined.

(** X17: a match whose first player is a human player and whose second
    player is a human or a computer player, on a selection set of the
    prescribed shape and without a limit that could be met, ends with
    [EOFError] once the input is used up: every turn needs at least one
    line, so [play] raises within one turn more than there are lines. *)
Theorem human_match_ends_with_input (fuel : nat) (limit : option Z)
    (s : GameHandler.State) :
  well_shaped (Game.selection_set (GameHandler.game (GameHandler.self s))) ->
  Player.cls (GameHandler.store s (GameHandler.player1 (GameHandler.self s)))
    = Player.Human ->
  Player.cls (GameHandler.store s (GameHandler.player2 (GameHandler.self s)))
    <> Player.Base ->
  unbounded limit ->
  length (stdin (GameHandler.world s)) < fuel ->
  GameHandler.play fuel limit s = GameHandler.Raised EOFError.
Proof.
  intros Hshape Hhuman Hsecond Hlim Hfuel.
  apply human_match_ends;
    [exact Hshape | exact Hhuman | exact Hsecond | | exact Hfuel].
  destruct limit as [m|]; [exact Hlim | exact I].
Qed.

Lemma human_match_ends_with_input_witness :
  GameHandler.play 4 None
    (RockPaperScissors.start
       (mkWorld ["rock"; "spock"; "scissors"] [] (fun n => 3 * n + 1) 0))
  = GameHandler.Raised EOFError.
Proof.
  apply (human_match_ends_with_input 4 None).
  - split; [reflexivity |]. simpl.
    repeat (constructor;
            [split; [reflexivity | repeat (constructor; [lia |]); constructor] |]).
    constructor.
  - reflexivity.
  - discriminate.
  - exact I.
  - simpl. lia.
Defined.

(** ** The script, run on a finite input *)

(** X19: the script calls [play] without a limit, with the human player
    first.  Whatever is typed and whatever the generator draws, on an
    input of finitely many lines the script ends with [EOFError], at the
    latest in the turn after the last line; it never stops on its own. *)
Theorem script_ends_with_input (w : World) (fuel : nat) :
  length (stdin w) < fuel ->
  GameHandler.play fuel None (RockPaperScissors.start w)
  = GameHandler.Raised EOFError.
Proof.
  intros Hfuel. apply human_match_ends.
  - exact script_selection_set_well_shaped.
  - reflexivity.
  - discriminate.
  - exact I.
  - exact Hfuel.
Qed.

Lemma script_ends_with_input_witness :
  GameHandler.play 3 None
    (RockPaperScissors.start (mkWorld ["scissors"; "rock"] [] (fun n => 7 * n) 0))
  = GameHandler.Raised EOFError.
Proof.
  apply (script_ends_with_input
           (mkWorld ["scissors"; "rock"] [] (fun n => 7 * n) 0) 3).
  simpl. lia.
Defined.
